(** * Semantic image search: relevance scoring, filtering and client storage

    Shallow embedding of the semantic-image-search repository.

    - The multi-modal scoring core of the backend (score fusion, the
      result filter pipeline, the query vector builder and the index
      strategy selector) is not part of the sources at hand; it is
      modelled from the specification of that core. Every such definition
      is marked "Modelled from the spec".  Scores, weights and embedding
      components are real numbers (exact arithmetic stands in for the
      floating-point values of the backend).
    - The front-end code is embedded from its TypeScript sources: the
      colour helpers and the palette extraction of lib/colorExtraction.ts,
      the favorites and recent searches of lib/favorites.ts, the
      preferences and saved searches of lib/preferences.ts, the favorite
      toggle, relevance labels and carousel of components/ResultsGrid.tsx,
      the lightbox zoom, and the upload query parameters of lib/api.ts.
      [localStorage] is an explicit store threaded through the calls, and
      the server-side rendering case ([typeof window === 'undefined']) is
      a separate environment; clock values, random ids and the string
      functions of the platform ([toLowerCase], [JSON.stringify] of the
      filters, [Number.prototype.toString]) are inputs. *)

From Stdlib Require Import Reals Lra List String Ascii ZArith Bool Lia.
From Stdlib Require Import Sorting.Sorted Sorting.Permutation.
Import ListNotations.

(** A fallible computation, as the backend's exceptions. *)
Inductive result (A E : Type) : Type :=
| Ok (a : A)
| Err (e : E).
Arguments Ok {A E} a.
Arguments Err {A E} e.

(** Boolean versions of the real comparisons used by the scoring code. *)
Definition Rltb (x y : R) : bool := if Rlt_dec x y then true else false.
Definition Rleb (x y : R) : bool := if Rle_dec x y then true else false.
Definition Reqb (x y : R) : bool := if Req_EM_T x y then true else false.

(* ------------------------------------------------------------------ *)
(** ** ScoringWeights *)

Module Weights.
Open Scope R_scope.

(** Tolerance for "sums to 1.0". *)
Definition tolerance : R := 1 / 1000000.

Record ScoringWeights := {
  image_weight : R;
  text_weight : R;
  metadata_weight : R
}.

Inductive WeightError := ZeroWeightSum.

Definition weight_sum (w : ScoringWeights) : R :=
  image_weight w + text_weight w + metadata_weight w.

(** Modelled from the spec: the ScoringWeights constructor of the backend
    scoring core. A zero sum is an error; a sum of exactly 1.0 keeps the
    weights; any other sum divides each weight by the sum. *)
Definition mkScoringWeights (i t m : R) : result ScoringWeights WeightError :=
  let s := i + t + m in
  if Req_EM_T s 0 then Err ZeroWeightSum
  else if Req_EM_T s 1 then
    Ok {| image_weight := i; text_weight := t; metadata_weight := m |}
  else
    Ok {| image_weight := i / s; text_weight := t / s; metadata_weight := m / s |}.

End Weights.

(* ------------------------------------------------------------------ *)
(** ** SimilarityPrimitives, QueryContext and ScoreFusion *)

Module Fusion.
Open Scope R_scope.
Import Weights.

Definition Embedding := list R.
Definition ColorBucket := string.

Fixpoint dot (a b : Embedding) : R :=
  match a, b with
  | x :: a', y :: b' => x * y + dot a' b'
  | _, _ => 0
  end.

Definition norm (a : Embedding) : R := sqrt (dot a a).

Inductive SimError := DimensionMismatch | DegenerateVector.

(** Modelled from the spec: cosineSimilarity of SimilarityPrimitives. *)
Definition cosineSimilarity (a b : Embedding) : result R SimError :=
  if Nat.eq_dec (List.length a) (List.length b) then
    if Req_EM_T (norm a) 0 then Err DegenerateVector
    else if Req_EM_T (norm b) 0 then Err DegenerateVector
    else Ok (dot a b / (norm a * norm b))
  else Err DimensionMismatch.

(** Candidate metadata: the attributes the scoring and filters read. *)
Record AttributeMap := {
  attr_color : ColorBucket;
  attr_orientation : string;
  attr_created : Z            (* creation date, as a day number *)
}.

Record Candidate := {
  identifier : string;
  embedding : Embedding;
  metadata : AttributeMap
}.

Inductive QueryMode := TextOnly | ImageOnly | Hybrid.

Record QueryContext := {
  mode : QueryMode;
  text_embedding : option Embedding;
  image_embedding : option Embedding;
  hybrid_text_weight : R;
  hybrid_image_weight : R
}.

Record ScoredResult := {
  candidate : Candidate;
  image_score : R;
  text_score : R;
  metadata_score : R;
  final_score : R
}.

Definition clamp01 (x : R) : R := Rmax 0 (Rmin 1 x).

(** The query vector an image (resp. text) signal is scored against,
    when the mode carries that signal. *)
Definition image_signal (q : QueryContext) : option Embedding :=
  match mode q with
  | TextOnly => None
  | ImageOnly | Hybrid => image_embedding q
  end.

Definition text_signal (q : QueryContext) : option Embedding :=
  match mode q with
  | ImageOnly => None
  | TextOnly | Hybrid => text_embedding q
  end.

Definition is_some {A} (o : option A) : bool :=
  match o with Some _ => true | None => false end.

(** Modelled from the spec: the weight-redistribution rule of ScoreFusion.
    The weight of a component whose signal is absent from the query (no
    image signal, no text signal, no target color) is excluded, and the
    remaining weights are divided by their sum. *)
Definition effective_weights (q : QueryContext) (w : ScoringWeights)
    (targetColor : option ColorBucket) : ScoringWeights :=
  let iw := if is_some (image_signal q) then image_weight w else 0 in
  let tw := if is_some (text_signal q) then text_weight w else 0 in
  let mw := if is_some targetColor then metadata_weight w else 0 in
  let s := iw + tw + mw in
  {| image_weight := iw / s; text_weight := tw / s; metadata_weight := mw / s |}.

Section ScoreFusion.
(** The attribute-similarity primitive: 1.0 on an exact bucket match, a
    heuristic partial score for near buckets, 0.0 otherwise. The spec
    leaves the heuristic open, so it is a parameter of the fusion. *)
Variable colorSimilarity : ColorBucket -> ColorBucket -> R.

Definition signal_score (sig : option Embedding) (e : Embedding) : result R SimError :=
  match sig with
  | None => Ok 0
  | Some v => cosineSimilarity e v
  end.

(** Modelled from the spec: scoring of one candidate by ScoreFusion. *)
Definition score_candidate (q : QueryContext) (w : ScoringWeights)
    (targetColor : option ColorBucket) (c : Candidate) : result ScoredResult SimError :=
  match signal_score (image_signal q) (embedding c),
        signal_score (text_signal q) (embedding c) with
  | Ok is, Ok ts =>
      let ms := match targetColor with
                | Some t => colorSimilarity (attr_color (metadata c)) t
                | None => 0
                end in
      let ew := effective_weights q w targetColor in
      Ok {| candidate := c; image_score := is; text_score := ts; metadata_score := ms;
            final_score := clamp01 (image_weight ew * is + text_weight ew * ts
                                    + metadata_weight ew * ms) |}
  | Err e, _ => Err e
  | _, Err e => Err e
  end.

(** Modelled from the spec: [fuse]; a candidate whose similarity fails
    (dimension mismatch, degenerate vector) is skipped. *)
Fixpoint fuse (cs : list Candidate) (q : QueryContext) (w : ScoringWeights)
    (targetColor : option ColorBucket) : list ScoredResult :=
  match cs with
  | [] => []
  | c :: cs' =>
      match score_candidate q w targetColor c with
      | Ok r => r :: fuse cs' q w targetColor
      | Err _ => fuse cs' q w targetColor
      end
  end.

End ScoreFusion.
End Fusion.

(* ------------------------------------------------------------------ *)
(** ** QueryVectorBuilder *)

Module QueryVectorBuilder.
Open Scope R_scope.
Import Fusion.

Inductive BuildError := InvalidQueryContext.

Fixpoint vadd (a b : Embedding) : Embedding :=
  match a, b with
  | x :: a', y :: b' => (x + y) :: vadd a' b'
  | _, _ => []
  end.

Definition vscale (c : R) (a : Embedding) : Embedding := map (Rmult c) a.

(** Re-scaling to unit length. *)
Definition normalize (v : Embedding) : Embedding := vscale (/ norm v) v.

Definition hybrid_weights_ok (q : QueryContext) : bool :=
  Rleb 0 (hybrid_text_weight q) && Rleb 0 (hybrid_image_weight q)
  && Rleb (Rabs (hybrid_text_weight q + hybrid_image_weight q - 1)) Weights.tolerance.

(** Modelled from the spec: QueryVectorBuilder.build, one outcome per
    query mode. *)
Definition build (q : QueryContext) : result Embedding BuildError :=
  match mode q with
  | TextOnly =>
      match text_embedding q with Some t => Ok t | None => Err InvalidQueryContext end
  | ImageOnly =>
      match image_embedding q with Some i => Ok i | None => Err InvalidQueryContext end
  | Hybrid =>
      match text_embedding q, image_embedding q with
      | Some t, Some i =>
          if hybrid_weights_ok q then
            Ok (normalize (vadd (vscale (hybrid_text_weight q) t)
                                (vscale (hybrid_image_weight q) i)))
          else Err InvalidQueryContext
      | _, _ => Err InvalidQueryContext
      end
  end.

End QueryVectorBuilder.

(* ------------------------------------------------------------------ *)
(** ** ResultFilterPipeline *)

Module ResultFilterPipeline.
Open Scope R_scope.
Import Fusion.

Record FilterCriteria := {
  min_score : option R;
  color : option ColorBucket;
  orientation : option string;
  date_from : option Z;
  date_to : option Z
}.

Definition result_id (r : ScoredResult) : string := identifier (candidate r).

(** Modelled from the spec: one result passes when it meets every
    supplied criterion (conjunction); an absent criterion constrains
    nothing. *)
Definition passes (crit : FilterCriteria) (r : ScoredResult) : bool :=
  let md := metadata (candidate r) in
  match min_score crit with Some m => negb (Rltb (final_score r) m) | None => true end
  && match color crit with Some c => String.eqb (attr_color md) c | None => true end
  && match orientation crit with Some o => String.eqb (attr_orientation md) o | None => true end
  && match date_from crit with Some d => (d <=? attr_created md)%Z | None => true end
  && match date_to crit with Some d => (attr_created md <=? d)%Z | None => true end.

(** Modelled from the spec: [filter]. *)
Definition filter_results (rs : list ScoredResult) (crit : FilterCriteria)
    : list ScoredResult :=
  List.filter (passes crit) rs.

(** The ranking order: higher final_score first, equal scores by
    candidate identifier ascending. *)
Definition ranks_before (a b : ScoredResult) : bool :=
  Rltb (final_score b) (final_score a)
  || (Reqb (final_score a) (final_score b) && String.leb (result_id a) (result_id b)).

Fixpoint insert (r : ScoredResult) (rs : list ScoredResult) : list ScoredResult :=
  match rs with
  | [] => [r]
  | r' :: rs' => if ranks_before r r' then r :: rs else r' :: insert r rs'
  end.

(** Modelled from the spec: [sort]. *)
Fixpoint sort_results (rs : list ScoredResult) : list ScoredResult :=
  match rs with
  | [] => []
  | r :: rs' => insert r (sort_results rs')
  end.

(** The ranking order, stated on the scores and identifiers. *)
Definition ranked (a b : ScoredResult) : Prop :=
  final_score b < final_score a \/
  (final_score a = final_score b /\ String.leb (result_id a) (result_id b) = true).

(** The criteria [crit] with its minimum score set to [m]. *)
Definition with_min_score (crit : FilterCriteria) (m : R) : FilterCriteria :=
  {| min_score := Some m; color := color crit; orientation := orientation crit;
     date_from := date_from crit; date_to := date_to crit |}.

Definition no_criteria : FilterCriteria :=
  {| min_score := None; color := None; orientation := None;
     date_from := None; date_to := None |}.

End ResultFilterPipeline.

(* ------------------------------------------------------------------ *)
(** ** IndexStrategySelector *)

Module IndexStrategySelector.
Open Scope Z_scope.

Inductive Objective := Accuracy | Speed | Memory.
Inductive IndexFamily := HNSW | IVFFlat | PQ.

Record IndexProfile := {
  family : IndexFamily;
  dimension : Z;
  build_params : list (string * Z)
}.

(** Build parameters as documented in the backend README: HNSW with
    M=32, ef_construction=400; IVF-Flat with nlist=2048, nprobe=5; PQ with
    one 8-bit sub-quantizer per 8 dimensions (at least one). *)
Definition hnsw_profile (d : Z) : IndexProfile :=
  {| family := HNSW; dimension := d;
     build_params := [("M"%string, 32); ("ef_construction"%string, 400)] |}.

Definition ivf_flat_profile (d : Z) : IndexProfile :=
  {| family := IVFFlat; dimension := d;
     build_params := [("nlist"%string, 2048); ("nprobe"%string, 5)] |}.

Definition pq_profile (d : Z) : IndexProfile :=
  {| family := PQ; dimension := d;
     build_params := [("m"%string, Z.max 1 (d / 8)); ("nbits"%string, 8)] |}.

(** Modelled from the spec: selectProfile. The three bands first; any
    other combination falls back to the band of its corpus size. *)
Definition selectProfile (corpusSize : Z) (objective : Objective) (d : Z) : IndexProfile :=
  match objective with
  | Accuracy => if corpusSize <? 100000 then hnsw_profile d else
                if corpusSize <? 1000000 then ivf_flat_profile d else pq_profile d
  | Speed => if (100000 <=? corpusSize) && (corpusSize <? 1000000) then ivf_flat_profile d
             else if corpusSize <? 100000 then hnsw_profile d else pq_profile d
  | Memory => if 1000000 <=? corpusSize then pq_profile d
              else if corpusSize <? 100000 then hnsw_profile d else ivf_flat_profile d
  end.

Definition param_names (f : IndexFamily) : list string :=
  match f with
  | HNSW => ["M"; "ef_construction"]
  | IVFFlat => ["nlist"; "nprobe"]
  | PQ => ["m"; "nbits"]
  end%string.

(** A profile is valid for dimension [d]: it carries that dimension, the
    build parameters of its family, all of them positive. *)
Definition valid_profile (d : Z) (p : IndexProfile) : bool :=
  (dimension p =? d)
  && (if list_eq_dec string_dec (map fst (build_params p)) (param_names (family p))
      then true else false)
  && forallb (fun kv => 0 <? snd kv) (build_params p).

End IndexStrategySelector.

(* ------------------------------------------------------------------ *)
(** ** lib/colorExtraction.ts *)

Module ColorExtraction.
Open Scope Z_scope.

Record RGB := { r : Z; g : Z; b : Z }.

(** One character of the class [[a-f\d]] under the [i] flag, with its
    value in base 16 as [parseInt] reads it. *)
Definition hex_digit (c : ascii) : option Z :=
  let n := Z.of_nat (nat_of_ascii c) in
  if (48 <=? n) && (n <=? 57) then Some (n - 48)
  else if (97 <=? n) && (n <=? 102) then Some (n - 87)
  else if (65 <=? n) && (n <=? 70) then Some (n - 55)
  else None.

(** [parseInt(xy, 16)] on a two-digit group of the pattern. *)
Definition hex_byte (c1 c2 : ascii) : option Z :=
  match hex_digit c1, hex_digit c2 with
  | Some h, Some l => Some (16 * h + l)
  | _, _ => None
  end.

(** The six-digit body of [/^#?([a-f\d]{2})([a-f\d]{2})([a-f\d]{2})$/i]. *)
Definition hex_body (s : string) : option RGB :=
  match s with
  | String c1 (String c2 (String c3 (String c4 (String c5 (String c6 EmptyString))))) =>
      match hex_byte c1 c2, hex_byte c3 c4, hex_byte c5 c6 with
      | Some r, Some g, Some b => Some {| r := r; g := g; b := b |}
      | _, _, _ => None
      end
  | _ => None
  end.

(** [hexToRgb]: the optional leading [#], then six hex digits up to the
    end of the string; [null] when the pattern does not match. *)
Definition hexToRgb (hex : string) : option RGB :=
  match hex with
  | String "#" rest =>
      match hex_body rest with
      | Some c => Some c
      | None => hex_body hex   (* [#?] matching nothing *)
      end
  | _ => hex_body hex
  end.

(** [getColorName]. *)
Definition getColorName (hex : string) : string :=
  match hexToRgb hex with
  | None => "Unknown"%string
  | Some rgb =>
      let '(r, g, b) := (r rgb, g rgb, b rgb) in
      let max := Z.max r (Z.max g b) in
      let min := Z.min r (Z.min g b) in
      let diff := max - min in
      if diff <? 30 then
        if max <? 50 then "Black"%string
        else if max <? 130 then "Gray"%string
        else if max <? 200 then "Light Gray"%string
        else "White"%string
      else if r =? max then
        if g >? b then (if g >? 150 then "Yellow"%string else "Orange"%string)
        else "Red"%string
      else if g =? max then
        if b >? r then "Cyan"%string else "Green"%string
      else if r >? g then "Magenta"%string
      else "Blue"%string
  end.

(** [isLightColor]: [(r*299 + g*587 + b*114) / 1000 > 128], the division
    written out as a comparison of integers. *)
Definition isLightColor (hex : string) : bool :=
  match hexToRgb hex with
  | None => true
  | Some c => 128 * 1000 <? r c * 299 + g c * 587 + b c * 114
  end.

Definition color_names : list string :=
  ["Unknown"; "Black"; "Gray"; "Light Gray"; "White"; "Yellow"; "Orange"; "Red";
   "Cyan"; "Green"; "Magenta"; "Blue"]%string.

End ColorExtraction.

(* ------------------------------------------------------------------ *)
(** ** lib/favorites.ts and lib/preferences.ts: localStorage-backed lists *)

Module ClientStorage.

(** [SearchResult] of lib/api.ts; [id: string | null]. *)
Record SearchResult := {
  sr_id : option string;
  sr_score : R;
  sr_metadata : list (string * string)
}.

(** [id: result.id || `fav-${Date.now()}`]. *)
Inductive FavoriteId :=
| FromResult (s : string)
| FromClock (t : Z).

(** [FavoriteImage]; [savedAt] is the ISO rendering of the clock value. *)
Record FavoriteImage := {
  fav_id : FavoriteId;
  fav_result : SearchResult;
  fav_savedAt : Z
}.

Record SavedFilters := {
  f_color : option string;
  f_orientation : option string;
  f_minScore : option R
}.

(** [SavedSearch] of lib/preferences.ts. *)
Record SavedSearch := {
  ss_id : string;
  ss_name : string;
  ss_query : string;
  ss_filters : option SavedFilters;
  ss_icon : option string;
  ss_shortcutKey : option Z;
  ss_createdAt : string;
  ss_lastUsed : option string;
  ss_useCount : Z
}.

(** One [localStorage] entry holding a JSON array: absent, a parsed
    array, or text that [JSON.parse] rejects. *)
Inductive Slot (A : Type) :=
| Missing
| Stored (v : list A)
| Corrupt.
Arguments Missing {A}.
Arguments Stored {A} v.
Arguments Corrupt {A}.

Record Storage := {
  favorites_slot : Slot FavoriteImage;           (* 'semantic-search-favorites' *)
  saved_searches_slot : Slot SavedSearch         (* 'semantic-search-saved-searches' *)
}.

(** Server-side rendering ([typeof window === 'undefined']) or a browser
    with its [localStorage]. *)
Inductive Env :=
| Server
| Browser (st : Storage).

(** [stored ? JSON.parse(stored) : []], with the [catch] returning [[]]. *)
Definition read_slot {A} (s : Slot A) : list A :=
  match s with
  | Stored l => l
  | Missing | Corrupt => []
  end.

Definition MAX_FAVORITES : nat := 100.

Definition getFavorites (env : Env) : list FavoriteImage :=
  match env with
  | Server => []
  | Browser st => read_slot (favorites_slot st)
  end.

(** [===] on [string | null]. *)
Definition id_eqb (a b : option string) : bool :=
  match a, b with
  | Some x, Some y => String.eqb x y
  | None, None => true
  | _, _ => false
  end.

(** [addToFavorites], at clock value [now]. *)
Definition addToFavorites (now : Z) (result : SearchResult) (env : Env) : Env :=
  match env with
  | Server => Server
  | Browser st =>
      let favorites := read_slot (favorites_slot st) in
      match find (fun fav => id_eqb (sr_id (fav_result fav)) (sr_id result)) favorites with
      | Some _ => env
      | None =>
          let newFavorite :=
            {| fav_id := match sr_id result with
                         | Some s => if String.eqb s "" then FromClock now else FromResult s
                         | None => FromClock now
                         end;
               fav_result := result;
               fav_savedAt := now |} in
          let updatedFavorites := firstn MAX_FAVORITES (newFavorite :: favorites) in
          Browser {| favorites_slot := Stored updatedFavorites;
                     saved_searches_slot := saved_searches_slot st |}
      end
  end.

Definition getSavedSearches (env : Env) : list SavedSearch :=
  match env with
  | Server => []
  | Browser st => read_slot (saved_searches_slot st)
  end.

(** The search [s] with its [shortcutKey] field set to [k]. *)
Definition with_shortcut (s : SavedSearch) (k : option Z) : SavedSearch :=
  {| ss_id := ss_id s; ss_name := ss_name s; ss_query := ss_query s;
     ss_filters := ss_filters s; ss_icon := ss_icon s; ss_shortcutKey := k;
     ss_createdAt := ss_createdAt s; ss_lastUsed := ss_lastUsed s;
     ss_useCount := ss_useCount s |}.

(** [s.shortcutKey === key]. *)
Definition has_shortcut (key : Z) (s : SavedSearch) : bool :=
  match ss_shortcutKey s with
  | Some k => Z.eqb k key
  | None => false
  end.

(** [searches.find(s => s.id === searchId)] followed by the assignment to
    the object found, in place in the array. *)
Fixpoint assign_to_first (searchId : string) (key : Z) (l : list SavedSearch)
    : list SavedSearch :=
  match l with
  | [] => []
  | s :: l' =>
      if String.eqb (ss_id s) searchId then with_shortcut s (Some key) :: l'
      else s :: assign_to_first searchId key l'
  end.

(** [assignShortcutKey]. *)
Definition assignShortcutKey (searchId : string) (key : Z) (env : Env) : Env :=
  match env with
  | Server => Server
  | Browser st =>
      let searches := read_slot (saved_searches_slot st) in
      let cleared := map (fun s => if has_shortcut key s then with_shortcut s None else s)
                         searches in
      let updated := assign_to_first searchId key cleared in
      Browser {| favorites_slot := favorites_slot st;
                 saved_searches_slot := Stored updated |}
  end.

(** The search [s] with [shortcutKey] cleared when it is [key]. *)
Definition clear_shortcut (key : Z) (s : SavedSearch) : SavedSearch :=
  if has_shortcut key s then with_shortcut s None else s.

End ClientStorage.

(* ------------------------------------------------------------------ *)
(** ** lib/colorExtraction.ts: palette extraction *)

Module ColorPalette.
Import ColorExtraction.
Open Scope Z_scope.

(** One lower-case hexadecimal digit, as [Number.prototype.toString(16)]
    writes it. *)
Definition hex_char (d : Z) : ascii :=
  ascii_of_nat (Z.to_nat (if d <? 10 then 48 + d else 87 + d)).

Fixpoint to_hex_aux (fuel : nat) (n : Z) (acc : string) : string :=
  match fuel with
  | O => acc
  | S f =>
      let acc' := String (hex_char (n mod 16)) acc in
      if n <? 16 then acc' else to_hex_aux f (n / 16) acc'
  end.

(** [x.toString(16)] for a non-negative integer [x]. *)
Definition toString16 (x : Z) : string := to_hex_aux (S (Z.to_nat x)) x EmptyString.

(** A channel as [rgbToHex] renders it: [x.toString(16)], padded with one
    [0] when it has a single digit. A channel read past the end of the
    pixel array is [undefined], and [Math.round(undefined / 32) * 32] is
    [NaN], whose [toString(16)] is ["NaN"]. *)
Definition hex_channel (x : option Z) : string :=
  match x with
  | Some v =>
      let hex := toString16 v in
      if Nat.eqb (String.length hex) 1 then String "0" hex else hex
  | None => "NaN"%string
  end.

(** [rgbToHex]. *)
Definition rgbToHex (r g b : option Z) : string :=
  String "#" (hex_channel r ++ hex_channel g ++ hex_channel b).

(** [Math.round(x / 32) * 32] for an integer [x >= 0]: [x / 32] is exact
    and [Math.round] rounds halves up, i.e. [floor((x + 16) / 32)]. *)
Definition quantize (x : option Z) : option Z :=
  match x with
  | Some v => Some ((v + 16) / 32 * 32)
  | None => None
  end.

(** [colorMap.set(color, (colorMap.get(color) || 0) + 1)] on a [Map],
    which keeps the insertion position of an existing key. *)
Fixpoint bump (color : string) (m : list (string * nat)) : list (string * nat) :=
  match m with
  | [] => [(color, 1%nat)]
  | (k, n) :: m' =>
      if String.eqb k color then (k, S n) :: m' else (k, n) :: bump color m'
  end.

(** The sampling loop [for (i = 0; i < pixels.length; i += 16)]: each
    step reads [pixels[i..i+3]] and skips a pixel with alpha below 128
    ([undefined < 128] is false). The [fuel] bounds the iterations. *)
Fixpoint count_colors (fuel : nat) (px : list Z) (m : list (string * nat))
    : list (string * nat) :=
  match fuel with
  | O => m
  | S f =>
      match px with
      | [] => m
      | _ =>
          let m' :=
            match nth_error px 3 with
            | Some a => if a <? 128 then m
                        else bump (rgbToHex (quantize (nth_error px 0))
                                            (quantize (nth_error px 1))
                                            (quantize (nth_error px 2))) m
            | None => bump (rgbToHex (quantize (nth_error px 0))
                                     (quantize (nth_error px 1))
                                     (quantize (nth_error px 2))) m
            end in
          count_colors f (skipn 16 px) m'
      end
  end.

(** [Array.prototype.sort] with comparator [b[1] - a[1]]; the sort is
    stable, so an entry goes before every later one with a count that is
    not larger. *)
Fixpoint insert_by_count (e : string * nat) (l : list (string * nat)) : list (string * nat) :=
  match l with
  | [] => [e]
  | e' :: l' => if Nat.leb (snd e') (snd e) then e :: l else e' :: insert_by_count e l'
  end.

Fixpoint sort_by_count (l : list (string * nat)) : list (string * nat) :=
  match l with
  | [] => []
  | e :: l' => insert_by_count e (sort_by_count l')
  end.

(** [colorMap.get(color) || 0]: the count of the first entry with the key. *)
Definition count_of (color : string) (m : list (string * nat)) : nat :=
  match find (fun e => String.eqb (fst e) color) m with
  | Some (_, n) => n
  | None => O
  end.

(** The colours the sampling loop counts, in the order it counts them:
    one per sampled pixel that is not skipped as transparent. *)
Fixpoint sampled_colors (fuel : nat) (px : list Z) : list string :=
  match fuel with
  | O => []
  | S f =>
      match px with
      | [] => []
      | _ =>
          let color := rgbToHex (quantize (nth_error px 0))
                                (quantize (nth_error px 1))
                                (quantize (nth_error px 2)) in
          match nth_error px 3 with
          | Some a => if a <? 128 then [] else [color]
          | None => [color]
          end ++ sampled_colors f (skipn 16 px)
      end
  end.

(** The count map after [bump] for each colour of [l] in turn. *)
Definition bump_all (l : list string) (m : list (string * nat)) : list (string * nat) :=
  fold_left (fun acc c => bump c acc) l m.

(** The order the comparator [(a, b) => b[1] - a[1]] sorts by: larger
    counts first. *)
Definition by_count (e1 e2 : string * nat) : Prop := (snd e2 <= snd e1)%nat.

(** [extractDominantColors]. *)
Definition extractDominantColors (pixels : list Z) (count : nat) : list string :=
  map fst (firstn count (sort_by_count (count_colors (List.length pixels) pixels []))).

End ColorPalette.

(** Executable checks over every channel value 0..255, used by the
    proofs about [rgbToHex]. *)
Module ColorChecks.
Import ColorExtraction ColorPalette.
Open Scope Z_scope.

(** [hex_channel] renders the channel as two hex digits that [hex_byte]
    reads back. *)
Definition channel_roundtrips (x : Z) : bool :=
  match hex_channel (Some x) with
  | String c1 (String c2 EmptyString) =>
      match hex_byte c1 c2 with Some v => v =? x | None => false end
  | _ => false
  end.

(** Below 240 the quantised channel is at most 224; from 240 on it is
    rendered with three digits. *)
Definition quantized_width (x : Z) : bool :=
  match quantize (Some x) with
  | Some q => (if x <? 240 then (q <=? 224) && (0 <=? q)
              else Nat.eqb (String.length (hex_channel (Some q))) 3)
  | None => false
  end.

End ColorChecks.

(* ------------------------------------------------------------------ *)
(** ** lib/favorites.ts: the rest of the favorites API, and its caller
    [handleToggleFavorite] of components/ResultsGrid.tsx *)

Module Favorites.
Import ClientStorage.

(** [removeFromFavorites]: keep the favorites whose [result.id] is not
    [resultId] ([!==] between [string | null] and [string]). *)
Definition removeFromFavorites (resultId : string) (env : Env) : Env :=
  match env with
  | Server => Server
  | Browser st =>
      let favorites := read_slot (favorites_slot st) in
      let updated := filter (fun fav => negb (id_eqb (sr_id (fav_result fav)) (Some resultId)))
                            favorites in
      Browser {| favorites_slot := Stored updated;
                 saved_searches_slot := saved_searches_slot st |}
  end.

(** [isFavorited]: no [window] test of its own; [getFavorites] has it. *)
Definition isFavorited (resultId : string) (env : Env) : bool :=
  existsb (fun fav => id_eqb (sr_id (fav_result fav)) (Some resultId)) (getFavorites env).

(** [result.id || '']. *)
Definition id_or_empty (result : SearchResult) : string :=
  match sr_id result with
  | Some s => s
  | None => EmptyString
  end.

(** [handleToggleFavorite] of the image modal in ResultsGrid.tsx. *)
Definition handleToggleFavorite (now : Z) (result : SearchResult) (env : Env) : Env :=
  if isFavorited (id_or_empty result) env
  then removeFromFavorites (id_or_empty result) env
  else addToFavorites now result env.

End Favorites.

(* ------------------------------------------------------------------ *)
(** ** lib/favorites.ts: recent searches *)

Module RecentSearches.
Import ClientStorage.

(** [RecentSearch]; [searchedAt] is an ISO date string. *)
Record RecentSearch := {
  rs_id : string;
  rs_query : string;
  rs_searchedAt : string;
  rs_resultCount : Z
}.

Definition MAX_RECENT_SEARCHES : nat := 10.

(** The ['semantic-search-recent'] entry of [localStorage]; the functions
    below read and write no other key. *)
Inductive RecentEnv :=
| RServer
| RBrowser (recent : Slot RecentSearch).

Definition getRecentSearches (env : RecentEnv) : list RecentSearch :=
  match env with
  | RServer => []
  | RBrowser s => read_slot s
  end.

Section WithLowerCase.

(** [String.prototype.toLowerCase]. *)
Variable toLowerCase : string -> string.

(** [search.query.toLowerCase() === query.toLowerCase()]. *)
Definition same_query (query : string) (search : RecentSearch) : bool :=
  String.eqb (toLowerCase (rs_query search)) (toLowerCase query).

(** [recent.find(search => same_query query search)] with the
    assignments to [searchedAt] and [resultCount] done on the object
    found, in place in the array; [None] when nothing matches. *)
Fixpoint update_existing (query : string) (searchedAt : string) (resultCount : Z)
    (l : list RecentSearch) : option (list RecentSearch) :=
  match l with
  | [] => None
  | s :: l' =>
      if same_query query s
      then Some ({| rs_id := rs_id s; rs_query := rs_query s;
                    rs_searchedAt := searchedAt; rs_resultCount := resultCount |} :: l')
      else option_map (cons s) (update_existing query searchedAt resultCount l')
  end.

(** [addToRecentSearches(query, resultCount)]; [newId] is
    [`search-${Date.now()}`] and [now] is [new Date().toISOString()]. *)
Definition addToRecentSearches (newId now : string) (query : string) (resultCount : Z)
    (env : RecentEnv) : RecentEnv :=
  match env with
  | RServer => RServer
  | RBrowser s =>
      let recent := read_slot s in
      let recent' :=
        match update_existing query now resultCount recent with
        | Some l => l
        | None => {| rs_id := newId; rs_query := query; rs_searchedAt := now;
                     rs_resultCount := resultCount |} :: recent   (* [recent.unshift] *)
        end in
      RBrowser (Stored (firstn MAX_RECENT_SEARCHES recent'))
  end.

End WithLowerCase.

End RecentSearches.

(* ------------------------------------------------------------------ *)
(** ** lib/preferences.ts: user preferences *)

Module Preferences.

(** [ViewMode] of components/ViewModeToggle.tsx. *)
Inductive ViewMode := grid | masonry | carousel.
Inductive Theme := light | dark | system.

Record UserPreferences := {
  viewMode : ViewMode;
  resultsPerPage : Z;
  theme : Theme;
  autoSaveSearches : bool;
  showColorPalettes : bool;
  enableKeyboardShortcuts : bool
}.

(** [Partial<UserPreferences>], and the object [JSON.parse] returns for
    the stored preferences: each key absent ([None]) or holding a value
    of its type. *)
Record PartialPreferences := {
  p_viewMode : option ViewMode;
  p_resultsPerPage : option Z;
  p_theme : option Theme;
  p_autoSaveSearches : option bool;
  p_showColorPalettes : option bool;
  p_enableKeyboardShortcuts : option bool
}.

Definition DEFAULT_PREFERENCES : UserPreferences :=
  {| viewMode := grid; resultsPerPage := 12; theme := system;
     autoSaveSearches := true; showColorPalettes := true;
     enableKeyboardShortcuts := true |}.

Definition override {A} (base : A) (o : option A) : A :=
  match o with Some v => v | None => base end.

(** [{ ...base, ...p }]. *)
Definition spread (base : UserPreferences) (p : PartialPreferences) : UserPreferences :=
  {| viewMode := override (viewMode base) (p_viewMode p);
     resultsPerPage := override (resultsPerPage base) (p_resultsPerPage p);
     theme := override (theme base) (p_theme p);
     autoSaveSearches := override (autoSaveSearches base) (p_autoSaveSearches p);
     showColorPalettes := override (showColorPalettes base) (p_showColorPalettes p);
     enableKeyboardShortcuts := override (enableKeyboardShortcuts base) (p_enableKeyboardShortcuts p) |}.

(** A full preferences object as the partial object [JSON.parse] gives
    back after [JSON.stringify]: every key present. *)
Definition as_partial (p : UserPreferences) : PartialPreferences :=
  {| p_viewMode := Some (viewMode p); p_resultsPerPage := Some (resultsPerPage p);
     p_theme := Some (theme p); p_autoSaveSearches := Some (autoSaveSearches p);
     p_showColorPalettes := Some (showColorPalettes p);
     p_enableKeyboardShortcuts := Some (enableKeyboardShortcuts p) |}.

(** The ['semantic-search-preferences'] entry: absent (or the empty
    string), a parsed object, or text that [JSON.parse] rejects. *)
Inductive PrefSlot :=
| PMissing
| PStored (p : PartialPreferences)
| PCorrupt.

Inductive PrefEnv :=
| PServer
| PBrowser (slot : PrefSlot).

Definition getPreferences (env : PrefEnv) : UserPreferences :=
  match env with
  | PServer => DEFAULT_PREFERENCES
  | PBrowser PMissing => DEFAULT_PREFERENCES
  | PBrowser (PStored parsed) => spread DEFAULT_PREFERENCES parsed
  | PBrowser PCorrupt => DEFAULT_PREFERENCES
  end.

Definition savePreferences (preferences : PartialPreferences) (env : PrefEnv) : PrefEnv :=
  match env with
  | PServer => PServer
  | PBrowser _ =>
      let current := getPreferences env in
      let updated := spread current preferences in
      PBrowser (PStored (as_partial updated))
  end.

Definition resetPreferences (env : PrefEnv) : PrefEnv :=
  match env with
  | PServer => PServer
  | PBrowser _ => PBrowser (PStored (as_partial DEFAULT_PREFERENCES))
  end.

End Preferences.

(* ------------------------------------------------------------------ *)
(** ** lib/preferences.ts: the rest of the saved-search API *)

Module SavedSearches.
Import ClientStorage.

Definition MAX_SAVED_SEARCHES : nat := 20.

(** [Omit<SavedSearch, 'id' | 'createdAt' | 'useCount'>]. *)
Record SearchInput := {
  in_name : string;
  in_query : string;
  in_filters : option SavedFilters;
  in_icon : option string;
  in_shortcutKey : option Z;
  in_lastUsed : option string
}.

(** [{ ...search, id, createdAt, useCount }]. *)
Definition complete (search : SearchInput) (id createdAt : string) (useCount : Z) : SavedSearch :=
  {| ss_id := id; ss_name := in_name search; ss_query := in_query search;
     ss_filters := in_filters search; ss_icon := in_icon search;
     ss_shortcutKey := in_shortcutKey search; ss_createdAt := createdAt;
     ss_lastUsed := in_lastUsed search; ss_useCount := useCount |}.

(** The saved searches with the store written back. *)
Definition write_searches (st : Storage) (l : list SavedSearch) : Env :=
  Browser {| favorites_slot := favorites_slot st; saved_searches_slot := Stored l |}.

Section WithStringify.

(** [JSON.stringify] on the [filters] field. *)
Variable stringify : option SavedFilters -> string.

(** [saveSearch(search)]: the search returned and the store after the
    call. [newId] is [`search-${Date.now()}-${random}`] and [now] is
    [new Date().toISOString()]. *)
Definition saveSearch (newId now : string) (search : SearchInput) (env : Env)
    : SavedSearch * Env :=
  match env with
  | Server => (complete search EmptyString EmptyString 0%Z, Server)
  | Browser st =>
      let searches := read_slot (saved_searches_slot st) in
      match find (fun s => String.eqb (ss_query s) (in_query search) &&
                           String.eqb (stringify (ss_filters s)) (stringify (in_filters search)))
                 searches with
      | Some existing => (existing, env)
      | None =>
          let newSearch := complete search newId now 0%Z in
          let updated := firstn MAX_SAVED_SEARCHES (newSearch :: searches) in
          (newSearch, write_searches st updated)
      end
  end.

End WithStringify.

(** [deleteSavedSearch]. *)
Definition deleteSavedSearch (id : string) (env : Env) : Env :=
  match env with
  | Server => Server
  | Browser st =>
      let searches := read_slot (saved_searches_slot st) in
      write_searches st (filter (fun s => negb (String.eqb (ss_id s) id)) searches)
  end.

(** [search.useCount += 1; search.lastUsed = now]. *)
Definition mark_used (now : string) (s : SavedSearch) : SavedSearch :=
  {| ss_id := ss_id s; ss_name := ss_name s; ss_query := ss_query s;
     ss_filters := ss_filters s; ss_icon := ss_icon s;
     ss_shortcutKey := ss_shortcutKey s; ss_createdAt := ss_createdAt s;
     ss_lastUsed := Some now; ss_useCount := ss_useCount s + 1 |}.

(** [searches.find(s => s.id === id)] followed by [mark_used] on the
    object found, in place in the array; [None] when there is none. *)
Fixpoint bump_use (id now : string) (l : list SavedSearch) : option (list SavedSearch) :=
  match l with
  | [] => None
  | s :: l' =>
      if String.eqb (ss_id s) id
      then Some (mark_used now s :: l')
      else option_map (cons s) (bump_use id now l')
  end.

(** [incrementSearchUseCount(id)], at [now = new Date().toISOString()]:
    nothing is written when no search has the id. *)
Definition incrementSearchUseCount (id now : string) (env : Env) : Env :=
  match env with
  | Server => Server
  | Browser st =>
      match bump_use id now (read_slot (saved_searches_slot st)) with
      | None => env
      | Some updated => write_searches st updated
      end
  end.

(** [getSearchByShortcut(key)]: [searches.find(s => s.shortcutKey === key)]. *)
Definition getSearchByShortcut (key : Z) (env : Env) : option SavedSearch :=
  find (has_shortcut key) (getSavedSearches env).

End SavedSearches.

(* ------------------------------------------------------------------ *)
(** ** components/ResultsGrid.tsx and the image lightbox: relevance
    labels, carousel and zoom *)

Module ResultsView.

(** The five levels of [getRelevanceInfo] (its colour classes apart). *)
Inductive Relevance := ExcellentMatch | VeryGoodMatch | GoodMatch | FairMatch | LowMatch.

Definition relevance_label (r : Relevance) : string :=
  match r with
  | ExcellentMatch => "Excellent Match"
  | VeryGoodMatch => "Very Good Match"
  | GoodMatch => "Good Match"
  | FairMatch => "Fair Match"
  | LowMatch => "Low Match"
  end.

(** [getRelevanceInfo(score)] of the grid's [ResultCard]. *)
Definition getRelevanceInfo (score : R) : Relevance :=
  if Rleb (35 / 100) score then ExcellentMatch
  else if Rleb (30 / 100) score then VeryGoodMatch
  else if Rleb (25 / 100) score then GoodMatch
  else if Rleb (20 / 100) score then FairMatch
  else LowMatch.

(** The order of the levels, [LowMatch] lowest. *)
Definition relevance_rank (r : Relevance) : nat :=
  match r with
  | ExcellentMatch => 4 | VeryGoodMatch => 3 | GoodMatch => 2 | FairMatch => 1 | LowMatch => 0
  end.

(** [CarouselView]'s [handlePrev] and [handleNext] on [currentIndex], for
    [results.length = n]. *)
Definition carousel_prev (n prev : Z) : Z := if Z.eqb prev 0 then n - 1 else prev - 1.
Definition carousel_next (n prev : Z) : Z := if Z.eqb prev (n - 1) then 0 else prev + 1.

(** [ImageLightbox]'s [handleZoomIn] and [handleZoomOut] on [zoom]. *)
Definition zoomIn (prev : R) : R := Rmin (prev + 1 / 2) 3.
Definition zoomOut (prev : R) : R := Rmax (prev - 1 / 2) 1.

(** A sequence of clicks on the zoom buttons ([true] for zoom in). *)
Fixpoint zoom_after (clicks : list bool) (z : R) : R :=
  match clicks with
  | [] => z
  | true :: cs => zoom_after cs (zoomIn z)
  | false :: cs => zoom_after cs (zoomOut z)
  end.

End ResultsView.

(* ------------------------------------------------------------------ *)
(** ** lib/api.ts: query parameters of [uploadImageSearch] *)

Module ApiClient.

(** The [options] argument; a [number] is a real ([NaN] is not modelled). *)
Record UploadOptions := {
  opt_query : option string;
  opt_top_k : option R;
  opt_min_score : option R
}.

Section WithNumberToString.

(** [Number.prototype.toString]. *)
Variable numberToString : R -> string.

(** [if (options.query) params.append('query', options.query)]: an
    empty string is falsy. *)
Definition append_query (query : option string) : list (string * string) :=
  match query with
  | Some q => if String.eqb q EmptyString then [] else [("query"%string, q)]
  | None => []
  end.

(** [if (options.x) params.append('x', options.x.toString())]: the
    number [0] is falsy. *)
Definition append_number (name : string) (x : option R) : list (string * string) :=
  match x with
  | Some v => if Reqb v 0 then [] else [(name, numberToString v)]
  | None => []
  end.

(** The pairs appended to [params] by [uploadImageSearch], in order. *)
Definition upload_params (options : UploadOptions) : list (string * string) :=
  append_query (opt_query options) ++
  append_number "top_k"%string (opt_top_k options) ++
  append_number "min_score"%string (opt_min_score options).

End WithNumberToString.

End ApiClient.

(* ------------------------------------------------------------------ *)
(** ** Concrete inputs used by the properties below *)

Module Scenarios.
Open Scope R_scope.
Import Weights Fusion ResultFilterPipeline QueryVectorBuilder ClientStorage.

(** The query and weights of the scenario of the spec: TextOnly, default
    weights 0.6 / 0.2 / 0.2, text query vector [[1]]. *)
Definition default_weights : ScoringWeights :=
  {| image_weight := 3 / 5; text_weight := 1 / 5; metadata_weight := 1 / 5 |}.

Definition text_query : QueryContext :=
  {| mode := TextOnly; text_embedding := Some [1]; image_embedding := None;
     hybrid_text_weight := 0; hybrid_image_weight := 0 |}.

Definition point_candidate (x : R) : Candidate :=
  {| identifier := "c"%string; embedding := [x];
     metadata := {| attr_color := "red"%string; attr_orientation := "landscape"%string;
                    attr_created := 0%Z |} |}.

Definition sample_result (id : string) (s : R) : ScoredResult :=
  {| candidate := {| identifier := id; embedding := [1];
                     metadata := {| attr_color := "red"%string;
                                    attr_orientation := "landscape"%string;
                                    attr_created := 0%Z |} |};
     image_score := 0; text_score := s; metadata_score := 0; final_score := s |}.

Definition hybrid_half_query : QueryContext :=
  {| mode := Hybrid; text_embedding := Some [1; 0]; image_embedding := Some [0; 1];
     hybrid_text_weight := 1 / 2; hybrid_image_weight := 1 / 2 |}.

Definition sample_search_result : SearchResult :=
  {| sr_id := Some "img-1"%string; sr_score := 9 / 10; sr_metadata := [] |}.

Definition one_favorite_store : Env :=
  Browser {| favorites_slot := Stored [{| fav_id := FromResult "img-1";
                                          fav_result := sample_search_result;
                                          fav_savedAt := 0%Z |}];
             saved_searches_slot := Missing |}.

Definition sample_saved (id : string) (k : option Z) : SavedSearch :=
  {| ss_id := id; ss_name := id; ss_query := "sunset"; ss_filters := None;
     ss_icon := None; ss_shortcutKey := k; ss_createdAt := "2025-01-01";
     ss_lastUsed := None; ss_useCount := 0%Z |}.

Definition two_saved_searches : Env :=
  Browser {| favorites_slot := Missing;
             saved_searches_slot := Stored [sample_saved "a" (Some 3%Z);
                                            sample_saved "b" None] |}.

Definition empty_storage : Storage :=
  {| favorites_slot := Missing; saved_searches_slot := Missing |}.

Definition null_id_result : SearchResult :=
  {| sr_id := None; sr_score := 1 / 2; sr_metadata := [] |}.

(** A store holding one favorite saved from a result without an id. *)
Definition null_favorite_storage : Storage :=
  {| favorites_slot := Stored [{| fav_id := FromClock 5%Z; fav_result := null_id_result;
                                  fav_savedAt := 5%Z |}];
     saved_searches_slot := Missing |}.

Definition sample_recent (id query : string) : RecentSearches.RecentSearch :=
  {| RecentSearches.rs_id := id; RecentSearches.rs_query := query;
     RecentSearches.rs_searchedAt := "2025-01-01"; RecentSearches.rs_resultCount := 8%Z |}.

Definition two_recent : Slot RecentSearches.RecentSearch :=
  Stored [sample_recent "search-2" "forest"; sample_recent "search-1" "sunset"].

End Scenarios.

(* ================================================================== *)
(** * Properties *)

Open Scope R_scope.

(* ------------------------------------------------------------------ *)
(** ** ScoringWeights construction *)

Section WeightsFacts.
Import Weights.

Lemma tolerance_pos : 0 <= tolerance.
Proof. unfold tolerance; lra. Qed.

(** C1: construction fails exactly when the supplied sum is zero; the
    constructed weights sum to 1.0 within the tolerance 1e-6; when the
    supplied weights do not sum to 1 each is divided by their sum. *)
Theorem mkScoringWeights_normalized (i t m : R) :
  ((exists e, mkScoringWeights i t m = Err e) <-> i + t + m = 0) /\
  (forall w, mkScoringWeights i t m = Ok w ->
     Rabs (weight_sum w - 1) <= tolerance /\
     (i + t + m <> 1 ->
        image_weight w = i / (i + t + m) /\ text_weight w = t / (i + t + m)
        /\ metadata_weight w = m / (i + t + m))).
Proof.
  pose proof tolerance_pos as Htol.
  unfold mkScoringWeights, weight_sum.
  destruct (Req_EM_T (i + t + m) 0) as [H0 | H0].
  - split; [split; [intros _; exact H0 | intros _; eauto] | intros w Hw; discriminate].
  - destruct (Req_EM_T (i + t + m) 1) as [H1 | H1].
    + split; [split; [intros [e He]; discriminate | intros; contradiction] |].
      intros w Hw; injection Hw as <-; simpl.
      split; [| intros; contradiction].
      rewrite H1, Rminus_diag, Rabs_R0; exact Htol.
    + split; [split; [intros [e He]; discriminate | intros; contradiction] |].
      intros w Hw; injection Hw as <-; simpl.
      split; [| intros _; repeat split].
      replace (i / (i + t + m) + t / (i + t + m) + m / (i + t + m) - 1) with 0
        by (field; exact H0).
      rewrite Rabs_R0; exact Htol.
Qed.

Lemma mkScoringWeights_normalized_witness :
  exists w, mkScoringWeights 3 1 1 = Ok w /\ Rabs (weight_sum w - 1) <= tolerance.
Proof.
  assert (Hmk : mkScoringWeights 3 1 1 =
    Ok {| image_weight := 3 / (3 + 1 + 1); text_weight := 1 / (3 + 1 + 1);
          metadata_weight := 1 / (3 + 1 + 1) |}).
  { unfold mkScoringWeights.
    destruct (Req_EM_T (3 + 1 + 1) 0) as [H | _]; [lra |].
    destruct (Req_EM_T (3 + 1 + 1) 1) as [H | _]; [lra | reflexivity]. }
  eexists; split; [exact Hmk |].
  exact (proj1 (proj2 (mkScoringWeights_normalized 3 1 1) _ Hmk)).
Defined.

End WeightsFacts.

(* ------------------------------------------------------------------ *)
(** ** Score fusion *)

Section FusionFacts.
Import Weights Fusion Scenarios.

Lemma clamp01_range (x : R) : 0 <= clamp01 x <= 1.
Proof.
  unfold clamp01, Rmax, Rmin.
  destruct (Rle_dec 1 x), (Rle_dec 0 _); lra.
Qed.

Lemma clamp01_id (x : R) : 0 <= x <= 1 -> clamp01 x = x.
Proof.
  intros Hx; unfold clamp01, Rmax, Rmin.
  destruct (Rle_dec 1 x), (Rle_dec 0 _); lra.
Qed.

Lemma clamp01_neg (x : R) : x < 0 -> clamp01 x = 0.
Proof.
  intros Hx; unfold clamp01, Rmax, Rmin.
  destruct (Rle_dec 1 x), (Rle_dec 0 _); lra.
Qed.

Lemma fuse_in (colorSimilarity : ColorBucket -> ColorBucket -> R)
    (cs : list Candidate) q w tc r :
  In r (fuse colorSimilarity cs q w tc) ->
  exists c, In c cs /\ score_candidate colorSimilarity q w tc c = Ok r.
Proof.
  induction cs as [| c cs IH]; simpl; [tauto |].
  destruct (score_candidate colorSimilarity q w tc c) eqn:Hs.
  - intros [<- | Hin]; [eauto |].
    destruct (IH Hin) as (c' & ? & ?); eauto.
  - intros Hin; destruct (IH Hin) as (c' & ? & ?); eauto.
Qed.

Lemma score_candidate_ok (colorSimilarity : ColorBucket -> ColorBucket -> R) q w tc c r :
  score_candidate colorSimilarity q w tc c = Ok r ->
  let ew := effective_weights q w tc in
  candidate r = c /\
  final_score r = clamp01 (image_weight ew * image_score r + text_weight ew * text_score r
                           + metadata_weight ew * metadata_score r) /\
  signal_score (image_signal q) (embedding c) = Ok (image_score r) /\
  signal_score (text_signal q) (embedding c) = Ok (text_score r) /\
  (tc = None -> metadata_score r = 0).
Proof.
  unfold score_candidate.
  destruct (signal_score (image_signal q) (embedding c)) as [is | e] eqn:Hi;
  destruct (signal_score (text_signal q) (embedding c)) as [ts | e'] eqn:Ht;
  try discriminate.
  intros Hr; injection Hr as <-; simpl.
  repeat split; auto.
  intros ->; reflexivity.
Qed.

(** Weights that already sum to 1 are unchanged by the redistribution
    when every signal is present. *)
Lemma effective_weights_all_present q w tc :
  is_some (image_signal q) = true -> is_some (text_signal q) = true ->
  is_some tc = true -> weight_sum w = 1 ->
  effective_weights q w tc = w.
Proof.
  intros Hi Ht Hm Hs; unfold effective_weights; rewrite Hi, Ht, Hm.
  unfold weight_sum in Hs; rewrite Hs.
  destruct w; simpl; f_equal; field.
Qed.

Lemma norm_one_point : norm [1] = 1.
Proof.
  unfold norm; simpl.
  replace (1 * 1 + 0) with 1 by ring; exact sqrt_1.
Qed.

Lemma cosine_one_point (x : R) : x = 1 \/ x = -1 ->
  cosineSimilarity [x] [1] = Ok x.
Proof.
  intros Hx.
  assert (Hn : norm [x] = 1).
  { unfold norm; simpl. replace (x * x + 0) with 1 by (destruct Hx; subst; ring).
    exact sqrt_1. }
  unfold cosineSimilarity; simpl.
  rewrite Hn, norm_one_point.
  destruct (Req_EM_T 1 0); [lra |].
  f_equal; simpl; field.
Qed.


Lemma effective_weights_text_query (w : ScoringWeights) :
  text_weight w <> 0 ->
  effective_weights text_query w None =
    {| image_weight := 0; text_weight := 1; metadata_weight := 0 |}.
Proof.
  intros Ht; unfold effective_weights; simpl.
  f_equal; field; lra.
Qed.

Lemma fuse_point (colorSimilarity : ColorBucket -> ColorBucket -> R) (x : R) :
  x = 1 \/ x = -1 ->
  fuse colorSimilarity [point_candidate x] text_query default_weights None =
    [{| candidate := point_candidate x; image_score := 0; text_score := x;
        metadata_score := 0; final_score := clamp01 (0 * 0 + 1 * x + 0 * 0) |}].
Proof.
  intros Hx; simpl.
  unfold score_candidate; simpl.
  rewrite (cosine_one_point x Hx).
  unfold effective_weights; simpl.
  repeat f_equal; unfold default_weights; simpl; field.
Qed.

End FusionFacts.

Section FusionClaims.
Import Weights Fusion Scenarios.

Lemma dot_self_nonneg (a : Embedding) : 0 <= dot a a.
Proof. induction a as [| x a IH]; simpl; nra. Qed.

Lemma quad_bound (x y A B C : R) :
  0 <= A -> 0 <= B -> C * C <= A * B ->
  2 * (x * y * C) <= x * x * B + y * y * A.
Proof.
  intros HA HB HC.
  destruct (Req_dec A 0) as [-> | HA0].
  - assert (C * C <= 0) by lra.
    assert (C = 0) by nra. subst; nra.
  - assert (HApos : 0 < A) by lra.
    assert (A * (x * x * B + y * y * A - 2 * (x * y * C)) >= 0).
    { pose proof (Rle_0_sqr (x * C - y * A)) as Hsq; unfold Rsqr in Hsq.
      assert (0 <= (x * x) * (A * B - C * C)) by (apply Rmult_le_pos; nra).
      nra. }
    nra.
Qed.

(** Cauchy-Schwarz for the dot product. *)
Lemma dot_cauchy_schwarz (a b : Embedding) :
  dot a b * dot a b <= dot a a * dot b b.
Proof.
  revert b; induction a as [| x a IH]; intros [| y b]; simpl.
  - lra.
  - pose proof (dot_self_nonneg b); nra.
  - pose proof (dot_self_nonneg a); nra.
  - specialize (IH b).
    pose proof (dot_self_nonneg a); pose proof (dot_self_nonneg b).
    pose proof (quad_bound x y (dot a a) (dot b b) (dot a b)
                  ltac:(assumption) ltac:(assumption) IH).
    nra.
Qed.

Lemma cosineSimilarity_le_1 (a b : Embedding) (s : R) :
  cosineSimilarity a b = Ok s -> s <= 1.
Proof.
  unfold cosineSimilarity.
  destruct (Nat.eq_dec _ _); [| discriminate].
  destruct (Req_EM_T (norm a) 0); [discriminate |].
  destruct (Req_EM_T (norm b) 0); [discriminate |].
  intros Hs; injection Hs as <-.
  assert (Hna : 0 < norm a) by (pose proof (sqrt_pos (dot a a)); unfold norm in *; lra).
  assert (Hnb : 0 < norm b) by (pose proof (sqrt_pos (dot b b)); unfold norm in *; lra).
  apply Rmult_le_reg_r with (norm a * norm b); [nra |].
  unfold Rdiv; rewrite Rmult_assoc, Rinv_l, Rmult_1_r, Rmult_1_l by nra.
  destruct (Rle_dec (dot a b) 0); [nra |].
  unfold norm; rewrite <- sqrt_mult by apply dot_self_nonneg.
  rewrite <- (sqrt_square (dot a b)) by lra.
  apply sqrt_le_1; [nra | pose proof (dot_self_nonneg a); pose proof (dot_self_nonneg b); nra |].
  apply dot_cauchy_schwarz.
Qed.

(** C2 (as stated, refuted): TextOnly query, weights 0.6 / 0.2 / 0.2, one
    candidate equal to the query vector. Its final_score is 1, not the
    weighted sum with the supplied weights, 0.2. *)
Lemma fuse_final_score_not_supplied_weights :
  exists r, In r (fuse (fun _ _ => 0) [point_candidate 1] text_query default_weights None)
    /\ final_score r <>
       clamp01 (image_weight default_weights * image_score r
                + text_weight default_weights * text_score r
                + metadata_weight default_weights * metadata_score r).
Proof.
  rewrite fuse_point by (left; reflexivity).
  eexists; split; [left; reflexivity |]; simpl.
  rewrite !clamp01_id by lra. lra.
Qed.

(** C2 (amended): every result of [fuse] has a final_score in [0,1]
    equal to the weighted sum of its component scores under the effective
    (redistributed) weights, clamped to [0,1]; when all three signals
    are present and the weights sum to 1 those are the supplied weights. *)
Theorem fuse_final_score_clamped (colorSimilarity : ColorBucket -> ColorBucket -> R)
    (cs : list Candidate) (q : QueryContext) (w : ScoringWeights)
    (tc : option ColorBucket) (r : ScoredResult) :
  In r (fuse colorSimilarity cs q w tc) ->
  let ew := effective_weights q w tc in
  0 <= final_score r <= 1 /\
  final_score r = clamp01 (image_weight ew * image_score r + text_weight ew * text_score r
                           + metadata_weight ew * metadata_score r) /\
  (is_some (image_signal q) = true -> is_some (text_signal q) = true ->
   is_some tc = true -> weight_sum w = 1 ->
   final_score r = clamp01 (image_weight w * image_score r + text_weight w * text_score r
                            + metadata_weight w * metadata_score r)).
Proof.
  intros Hin ew.
  destruct (fuse_in _ _ _ _ _ _ Hin) as (c & _ & Hc).
  destruct (score_candidate_ok _ _ _ _ _ _ Hc) as (_ & Hf & _).
  split; [rewrite Hf; apply clamp01_range |].
  split; [exact Hf |].
  intros Hi Ht Hm Hs.
  rewrite Hf; unfold ew; rewrite effective_weights_all_present; auto.
Qed.

Lemma fuse_final_score_clamped_witness :
  0 <= final_score {| candidate := point_candidate 1; image_score := 0; text_score := 1;
                      metadata_score := 0; final_score := clamp01 (0 * 0 + 1 * 1 + 0 * 0) |}
    <= 1.
Proof.
  refine (proj1 (fuse_final_score_clamped (fun _ _ => 0) [point_candidate 1] text_query
                   default_weights None _ _)).
  rewrite fuse_point by (left; reflexivity). left; reflexivity.
Defined.

(** C3 (as stated, refuted): TextOnly query, no target color, one
    candidate opposite to the query vector. Its text_score is -1 and its
    final_score, clamped, is 0. *)
Lemma fuse_text_only_negative_cosine :
  exists r, In r (fuse (fun _ _ => 0) [point_candidate (-1)] text_query default_weights None)
    /\ text_score r = -1 /\ final_score r = 0.
Proof.
  rewrite fuse_point by (right; reflexivity).
  eexists; split; [left; reflexivity |]; simpl.
  split; [reflexivity |]. apply clamp01_neg; lra.
Qed.

(** C3 (amended): for a TextOnly query carrying its text embedding, with
    no target color and a nonzero text weight, the effective weights are
    image 0, text 1, metadata 0, and every final_score is the candidate's
    text_score clamped to [0,1]: equal to text_score whenever it is
    non-negative. *)
Theorem fuse_text_only_final_score (colorSimilarity : ColorBucket -> ColorBucket -> R)
    (cs : list Candidate) (q : QueryContext) (w : ScoringWeights) :
  mode q = TextOnly -> is_some (text_embedding q) = true -> text_weight w <> 0 ->
  effective_weights q w None =
    {| image_weight := 0; text_weight := 1; metadata_weight := 0 |} /\
  forall r, In r (fuse colorSimilarity cs q w None) ->
    final_score r = clamp01 (text_score r) /\
    (0 <= text_score r -> final_score r = text_score r).
Proof.
  intros Hmode Htext Hw.
  assert (Hew : effective_weights q w None =
                {| image_weight := 0; text_weight := 1; metadata_weight := 0 |}).
  { unfold effective_weights, image_signal, text_signal; rewrite Hmode, Htext; simpl.
    f_equal; field; lra. }
  split; [exact Hew |].
  intros r Hin.
  destruct (fuse_in _ _ _ _ _ _ Hin) as (c & _ & Hc).
  destruct (score_candidate_ok _ _ _ _ _ _ Hc) as (_ & Hf & Hi & Ht & Hm).
  rewrite Hew in Hf; simpl in Hf.
  rewrite (Hm eq_refl) in Hf.
  assert (Hf' : final_score r = clamp01 (text_score r)) by (rewrite Hf; f_equal; ring).
  split; [exact Hf' |].
  intros Hpos; rewrite Hf'; apply clamp01_id; split; [exact Hpos |].
  unfold text_signal in Ht; rewrite Hmode in Ht.
  destruct (text_embedding q) as [v |]; [| discriminate].
  exact (cosineSimilarity_le_1 _ _ _ Ht).
Qed.

Lemma fuse_text_only_final_score_witness :
  effective_weights text_query default_weights None =
    {| image_weight := 0; text_weight := 1; metadata_weight := 0 |}.
Proof.
  refine (proj1 (fuse_text_only_final_score (fun _ _ => 0) [] text_query default_weights
                   eq_refl eq_refl _)).
  unfold default_weights; simpl; lra.
Defined.

End FusionClaims.

(* ------------------------------------------------------------------ *)
(** ** Result filter pipeline *)

Section FilterFacts.
Import Fusion ResultFilterPipeline Scenarios.

Lemma filter_length_mono {A} (f g : A -> bool) (l : list A) :
  (forall x, f x = true -> g x = true) ->
  (List.length (List.filter f l) <= List.length (List.filter g l))%nat.
Proof.
  intros Hfg; induction l as [| x l IH]; simpl; [lia |].
  destruct (f x) eqn:Hf.
  - rewrite (Hfg x Hf); simpl; lia.
  - destruct (g x); simpl; lia.
Qed.

(** C4: the min_score filter drops exactly the results below the
    threshold, and raising the threshold (other criteria fixed) never
    increases the number of surviving results. *)
Theorem filter_min_score_monotone (rs : list ScoredResult) (crit : FilterCriteria) (m1 m2 : R) :
  m1 <= m2 ->
  (List.length (filter_results rs (with_min_score crit m2))
     <= List.length (filter_results rs (with_min_score crit m1)))%nat /\
  (forall r, In r (filter_results rs (with_min_score no_criteria m2)) <->
             In r rs /\ ~ final_score r < m2).
Proof.
  intros Hm; split.
  - apply filter_length_mono; intros r.
    unfold passes, with_min_score; simpl.
    unfold Rltb; destruct (Rlt_dec (final_score r) m2), (Rlt_dec (final_score r) m1);
      simpl; auto; try lra; discriminate.
  - intros r; unfold filter_results; rewrite filter_In.
    unfold passes; simpl; unfold Rltb.
    destruct (Rlt_dec (final_score r) m2); simpl; intuition discriminate.
Qed.


(** The scenario of the spec: min_score 0.5 over final scores 0.9 and 0.3. *)
Lemma filter_min_score_monotone_witness :
  (List.length (filter_results [sample_result "a" (9/10); sample_result "b" (3/10)]
             (with_min_score no_criteria (1/2)))
   <= List.length (filter_results [sample_result "a" (9/10); sample_result "b" (3/10)]
                (with_min_score no_criteria (1/5))))%nat.
Proof.
  refine (proj1 (filter_min_score_monotone _ _ (1/5) (1/2) _)). lra.
Defined.


Lemma ranks_before_ranked a b : ranks_before a b = true <-> ranked a b.
Proof.
  unfold ranks_before, ranked, Rltb, Reqb.
  destruct (Rlt_dec (final_score b) (final_score a)),
           (Req_EM_T (final_score a) (final_score b)); simpl;
    rewrite ?orb_true_iff, ?andb_true_iff; intuition (try lra; try discriminate).
Qed.

Lemma string_leb_trans (s1 s2 s3 : string) :
  String.leb s1 s2 = true -> String.leb s2 s3 = true -> String.leb s1 s3 = true.
Proof.
  unfold String.leb.
  revert s2 s3; induction s1 as [| c1 s1 IH]; intros [| c2 s2] [| c3 s3];
    simpl; auto; try discriminate.
  unfold Ascii.compare.
  destruct (N.compare_spec (N_of_ascii c1) (N_of_ascii c2)),
           (N.compare_spec (N_of_ascii c2) (N_of_ascii c3)),
           (N.compare_spec (N_of_ascii c1) (N_of_ascii c3));
    try lia; auto; try discriminate; eauto.
Qed.

Lemma ranked_total a b : ranked a b \/ ranked b a.
Proof.
  unfold ranked.
  destruct (Rtotal_order (final_score a) (final_score b)) as [H | [H | H]]; [tauto | | tauto].
  destruct (String.leb_total (result_id a) (result_id b)); [left | right]; right; auto.
Qed.

Lemma ranked_trans a b c : ranked a b -> ranked b c -> ranked a c.
Proof.
  unfold ranked; intros [Hab | [Hab Hid]] [Hbc | [Hbc Hid']].
  - left; lra.
  - left; lra.
  - left; lra.
  - right; split; [lra | eapply string_leb_trans; eauto].
Qed.

Lemma insert_perm r rs : Permutation (r :: rs) (insert r rs).
Proof.
  induction rs as [| r' rs IH]; simpl; [reflexivity |].
  destruct (ranks_before r r'); [reflexivity |].
  rewrite perm_swap; constructor; exact IH.
Qed.

Lemma sort_results_perm rs : Permutation rs (sort_results rs).
Proof.
  induction rs as [| r rs IH]; simpl; [constructor |].
  rewrite <- insert_perm; constructor; exact IH.
Qed.

Lemma insert_hdrel a r rs :
  HdRel ranked a rs -> ranked a r -> HdRel ranked a (insert r rs).
Proof.
  destruct rs as [| r' rs]; simpl; intros Hd Har; [constructor; exact Har |].
  destruct (ranks_before r r'); constructor; [exact Har |].
  inversion Hd; assumption.
Qed.

Lemma insert_sorted r rs : Sorted ranked rs -> Sorted ranked (insert r rs).
Proof.
  induction rs as [| r' rs IH]; simpl; intros Hs; [repeat constructor |].
  destruct (ranks_before r r') eqn:Hb.
  - constructor; [exact Hs | constructor; apply ranks_before_ranked; exact Hb].
  - inversion Hs as [| ? ? Hs' Hd]; subst.
    constructor; [apply IH; exact Hs' |].
    apply insert_hdrel; [exact Hd |].
    destruct (ranked_total r r') as [H | H]; [| exact H].
    apply ranks_before_ranked in H; congruence.
Qed.

Lemma sort_results_sorted rs : StronglySorted ranked (sort_results rs).
Proof.
  apply Sorted_StronglySorted; [intros a b c; apply ranked_trans |].
  induction rs as [| r rs IH]; simpl; [constructor | apply insert_sorted; exact IH].
Qed.

Lemma strongly_sorted_perm_unique {A} (Rel : A -> A -> Prop) (l1 l2 : list A) :
  Permutation l1 l2 -> StronglySorted Rel l1 -> StronglySorted Rel l2 ->
  (forall a b, In a l1 -> In b l1 -> Rel a b -> Rel b a -> a = b) ->
  l1 = l2.
Proof.
  revert l2; induction l1 as [| a l1 IH]; intros l2 Hp H1 H2 Hanti.
  - symmetry; apply Permutation_nil; exact Hp.
  - destruct l2 as [| b l2].
    + apply Permutation_sym, Permutation_nil in Hp; discriminate.
    + assert (Hab : a = b).
      { apply StronglySorted_inv in H1 as [_ F1].
        apply StronglySorted_inv in H2 as [_ F2].
        assert (Ha : In a (b :: l2)) by (eapply Permutation_in; [exact Hp | left; reflexivity]).
        assert (Hb : In b (a :: l1))
          by (eapply Permutation_in; [apply Permutation_sym; exact Hp | left; reflexivity]).
        destruct Ha as [-> | Ha]; [reflexivity |].
        destruct Hb as [-> | Hb]; [reflexivity |].
        apply Hanti; [left; reflexivity | right; exact Hb | |].
        - rewrite Forall_forall in F1; apply F1; exact Hb.
        - rewrite Forall_forall in F2; apply F2; exact Ha. }
      subst b; f_equal.
      apply IH.
      * apply Permutation_cons_inv in Hp; exact Hp.
      * inversion H1; assumption.
      * inversion H2; assumption.
      * intros x y Hx Hy; apply Hanti; right; assumption.
Qed.

Lemma NoDup_map_inj {A B} (f : A -> B) (l : list A) a b :
  NoDup (map f l) -> In a l -> In b l -> f a = f b -> a = b.
Proof.
  induction l as [| x l IH]; simpl; [tauto |].
  intros Hnd Ha Hb Hf; inversion Hnd as [| ? ? Hnin Hnd']; subst.
  destruct Ha as [<- | Ha], Hb as [<- | Hb]; auto.
  - exfalso; apply Hnin; rewrite Hf; apply in_map; exact Hb.
  - exfalso; apply Hnin; rewrite <- Hf; apply in_map; exact Ha.
Qed.

(** C5: [sort] returns a permutation of its input ordered by final_score
    descending, equal scores by candidate identifier ascending; and for
    results with distinct identifiers the output depends on nothing but
    the results themselves (not on the input order). *)
Theorem sort_results_ranked (rs : list ScoredResult) :
  Permutation rs (sort_results rs) /\
  StronglySorted ranked (sort_results rs) /\
  (forall rs', Permutation rs rs' -> NoDup (map result_id rs) ->
               sort_results rs' = sort_results rs).
Proof.
  split; [apply sort_results_perm |].
  split; [apply sort_results_sorted |].
  intros rs' Hp Hnd.
  symmetry; apply (strongly_sorted_perm_unique ranked); try apply sort_results_sorted.
  - rewrite <- !sort_results_perm; exact Hp.
  - intros a b Ha Hb Hab Hba.
    rewrite <- sort_results_perm in Ha, Hb.
    apply (NoDup_map_inj result_id rs); auto.
    unfold ranked in *.
    destruct Hab as [Hab | [Hab Hid]], Hba as [Hba | [Hba Hid']]; try lra.
    apply String.leb_antisym; assumption.
Qed.

Lemma sort_results_ranked_witness :
  sort_results [sample_result "b" (3/10); sample_result "a" (9/10)] =
  sort_results [sample_result "a" (9/10); sample_result "b" (3/10)].
Proof.
  refine (proj2 (proj2 (sort_results_ranked _)) _ _ _).
  - apply perm_swap.
  - repeat constructor; simpl; intuition discriminate.
Defined.

End FilterFacts.

(* ------------------------------------------------------------------ *)
(** ** Index strategy selection *)

Section IndexFacts.
Import IndexStrategySelector.

Lemma profiles_valid (d : Z) :
  valid_profile d (hnsw_profile d) = true /\
  valid_profile d (ivf_flat_profile d) = true /\
  valid_profile d (pq_profile d) = true.
Proof.
  unfold valid_profile; simpl; rewrite Z.eqb_refl; simpl.
  split; [reflexivity | split; [reflexivity |]].
  rewrite andb_true_r; apply Z.ltb_lt; lia.
Qed.

(** C6: [selectProfile] returns a valid profile for the requested
    dimension on every input; each band gets its family; and the two
    scenarios of the spec give HNSW and PQ. *)
Theorem selectProfile_total (corpusSize : Z) (objective : Objective) (d : Z) :
  valid_profile d (selectProfile corpusSize objective d) = true /\
  ((corpusSize < 100000)%Z -> family (selectProfile corpusSize Accuracy d) = HNSW) /\
  ((100000 <= corpusSize < 1000000)%Z -> family (selectProfile corpusSize Speed d) = IVFFlat) /\
  ((1000000 <= corpusSize)%Z -> family (selectProfile corpusSize Memory d) = PQ) /\
  family (selectProfile 50000 Accuracy 512) = HNSW /\
  family (selectProfile 5000000 Memory 512) = PQ.
Proof.
  destruct (profiles_valid d) as (Hh & Hi & Hp).
  split.
  { destruct objective; simpl;
      repeat match goal with
             | |- context [if ?c then _ else _] => destruct c
             end; assumption. }
  split; [intros H; simpl; destruct (Z.ltb_spec corpusSize 100000); [reflexivity | lia] |].
  split.
  { intros H; simpl.
    destruct (Z.leb_spec 100000 corpusSize), (Z.ltb_spec corpusSize 1000000);
      simpl; [reflexivity | lia | lia | lia]. }
  split; [intros H; simpl; destruct (Z.leb_spec 1000000 corpusSize); [reflexivity | lia] |].
  split; reflexivity.
Qed.

Lemma selectProfile_total_witness :
  family (selectProfile 50000 Accuracy 512) = HNSW.
Proof.
  refine (proj1 (proj2 (selectProfile_total 50000 Accuracy 512)) _). lia.
Defined.

End IndexFacts.

(* ------------------------------------------------------------------ *)
(** ** Query vector builder *)

Section BuilderFacts.
Import Fusion QueryVectorBuilder Scenarios.

Lemma dot_vscale (c : R) (a b : Embedding) :
  dot (vscale c a) (vscale c b) = c * c * dot a b.
Proof.
  unfold vscale; revert b; induction a as [| x a IH]; intros [| y b];
    cbn [map dot]; try ring.
  rewrite IH; ring.
Qed.

Lemma norm_normalize (v : Embedding) : norm v <> 0 -> norm (normalize v) = 1.
Proof.
  intros Hn; unfold normalize, norm.
  rewrite dot_vscale.
  pose proof (dot_self_nonneg v) as Hd.
  fold (norm v).
  replace (/ norm v * / norm v * dot v v) with 1; [exact sqrt_1 |].
  unfold norm in *; rewrite <- (sqrt_sqrt (dot v v) Hd) at 3.
  field; exact Hn.
Qed.

(** C7: on a Hybrid context with both embeddings, non-negative hybrid
    weights summing to 1 within the tolerance and a nonzero weighted sum,
    [build] returns the normalized weighted sum, which has unit norm. *)
Theorem build_hybrid_unit_norm (q : QueryContext) (t i : Embedding) :
  mode q = Hybrid -> text_embedding q = Some t -> image_embedding q = Some i ->
  0 <= hybrid_text_weight q -> 0 <= hybrid_image_weight q ->
  Rabs (hybrid_text_weight q + hybrid_image_weight q - 1) <= Weights.tolerance ->
  let v := vadd (vscale (hybrid_text_weight q) t) (vscale (hybrid_image_weight q) i) in
  norm v <> 0 ->
  build q = Ok (normalize v) /\ norm (normalize v) = 1.
Proof.
  intros Hm Ht Hi Hwt Hwi Hs v Hv.
  split; [| apply norm_normalize; exact Hv].
  unfold build; rewrite Hm, Ht, Hi.
  unfold hybrid_weights_ok, Rleb.
  destruct (Rle_dec 0 (hybrid_text_weight q)); [| lra].
  destruct (Rle_dec 0 (hybrid_image_weight q)); [| lra].
  destruct (Rle_dec _ Weights.tolerance); [reflexivity | lra].
Qed.


(** The round-trip scenario of the spec: weights 0.5 / 0.5, two distinct
    unit vectors. *)
Lemma build_hybrid_unit_norm_witness :
  build hybrid_half_query =
    Ok (normalize (vadd (vscale (1 / 2) [1; 0]) (vscale (1 / 2) [0; 1]))) /\
  norm (normalize (vadd (vscale (1 / 2) [1; 0]) (vscale (1 / 2) [0; 1]))) = 1.
Proof.
  apply (build_hybrid_unit_norm hybrid_half_query [1; 0] [0; 1]);
    try reflexivity; simpl; try lra.
  - replace (1 / 2 + 1 / 2 - 1) with 0 by lra.
    rewrite Rabs_R0; unfold Weights.tolerance; lra.
  - unfold norm; simpl; intros H.
    apply sqrt_eq_0 in H; lra.
Defined.

End BuilderFacts.

(* ------------------------------------------------------------------ *)
(** ** Color naming (lib/colorExtraction.ts) *)

Section ColorFacts.
Import ColorExtraction.
Open Scope Z_scope.

Example getColorName_red : getColorName "#ff0000"%string = "Red"%string.
Proof. vm_compute. reflexivity. Qed.

Example getColorName_no_hash : getColorName "FFFFFF"%string = "White"%string.
Proof. vm_compute. reflexivity. Qed.

Example getColorName_bad : getColorName "#ff00"%string = "Unknown"%string.
Proof. vm_compute. reflexivity. Qed.

Lemma hex_digit_range (c : ascii) (v : Z) : hex_digit c = Some v -> 0 <= v <= 15.
Proof.
  unfold hex_digit.
  destruct ((48 <=? _) && (_ <=? 57)) eqn:H1;
    [intros Hv; injection Hv as <-; rewrite andb_true_iff, !Z.leb_le in H1; lia |].
  destruct ((97 <=? _) && (_ <=? 102)) eqn:H2;
    [intros Hv; injection Hv as <-; rewrite andb_true_iff, !Z.leb_le in H2; lia |].
  destruct ((65 <=? _) && (_ <=? 70)) eqn:H3;
    [intros Hv; injection Hv as <-; rewrite andb_true_iff, !Z.leb_le in H3; lia |].
  discriminate.
Qed.

Lemma hex_byte_range (c1 c2 : ascii) (v : Z) : hex_byte c1 c2 = Some v -> 0 <= v <= 255.
Proof.
  unfold hex_byte.
  destruct (hex_digit c1) as [h |] eqn:Hh; [| discriminate].
  destruct (hex_digit c2) as [l |] eqn:Hl; [| discriminate].
  apply hex_digit_range in Hh; apply hex_digit_range in Hl.
  intros Hv; assert (v = 16 * h + l) by congruence; lia.
Qed.

Lemma hex_body_range (s : string) (c : RGB) :
  hex_body s = Some c -> 0 <= r c <= 255 /\ 0 <= g c <= 255 /\ 0 <= b c <= 255.
Proof.
  unfold hex_body.
  repeat match goal with
         | |- match ?s with EmptyString => _ | String _ _ => _ end = _ -> _ =>
             destruct s; try discriminate
         end.
  destruct (hex_byte a a0) as [x |] eqn:Hx; [| discriminate].
  destruct (hex_byte a1 a2) as [y |] eqn:Hy; [| discriminate].
  destruct (hex_byte a3 a4) as [z |] eqn:Hz; [| discriminate].
  intros Hc; injection Hc as <-; simpl.
  apply hex_byte_range in Hx; apply hex_byte_range in Hy; apply hex_byte_range in Hz.
  auto.
Qed.

Lemma hexToRgb_range (hex : string) (c : RGB) :
  hexToRgb hex = Some c -> 0 <= r c <= 255 /\ 0 <= g c <= 255 /\ 0 <= b c <= 255.
Proof.
  unfold hexToRgb.
  destruct hex as [| a rest]; [apply hex_body_range |].
  destruct (Ascii.ascii_dec a "#") as [-> | Hne].
  - destruct (hex_body rest) eqn:Hb.
    + intros Hc; injection Hc as <-; eapply hex_body_range; exact Hb.
    + apply hex_body_range.
  - destruct a as [[] [] [] [] [] [] [] []];
      try apply hex_body_range; exfalso; apply Hne; reflexivity.
Qed.

(** C8: [getColorName] and [isLightColor] are total functions of the
    input string: the name is always one of the twelve names, a string
    that is not a hex color gives the fallback ("Unknown", light), a
    parsed color has channels in [0,255], and two strings with the same
    parsed color (in particular two evaluations on one string) give the
    same results. *)
Theorem getColorName_total (hex : string) :
  In (getColorName hex) color_names /\
  (hexToRgb hex = None -> getColorName hex = "Unknown"%string /\ isLightColor hex = true) /\
  (forall c, hexToRgb hex = Some c -> 0 <= r c <= 255 /\ 0 <= g c <= 255 /\ 0 <= b c <= 255) /\
  (forall hex', hexToRgb hex' = hexToRgb hex ->
     getColorName hex' = getColorName hex /\ isLightColor hex' = isLightColor hex).
Proof.
  split.
  { unfold getColorName.
    destruct (hexToRgb hex) as [c |]; [| simpl; tauto].
    destruct c as [x y z]; cbn beta iota zeta.
    repeat match goal with
           | |- context [if ?t then _ else _] => destruct t
           end; simpl; tauto. }
  split; [intros Hn; unfold getColorName, isLightColor; rewrite Hn; split; reflexivity |].
  split; [apply hexToRgb_range |].
  intros hex' Heq; unfold getColorName, isLightColor; rewrite Heq; split; reflexivity.
Qed.

Lemma getColorName_total_witness : getColorName "#gg0000"%string = "Unknown"%string.
Proof.
  refine (proj1 (proj1 (proj2 (getColorName_total "#gg0000"%string)) _)).
  vm_compute; reflexivity.
Defined.

End ColorFacts.

(* ------------------------------------------------------------------ *)
(** ** Favorites (lib/favorites.ts) *)

Section FavoritesFacts.
Import ClientStorage Scenarios.

Lemma id_eqb_true (a b : option string) : id_eqb a b = true <-> a = b.
Proof.
  destruct a as [x |], b as [y |]; simpl; try (split; congruence).
  rewrite String.eqb_eq; split; congruence.
Qed.

Lemma find_some_of_in {A} (f : A -> bool) (l : list A) (x : A) :
  In x l -> f x = true -> exists y, find f l = Some y.
Proof.
  intros Hin Hx; destruct (find f l) as [y |] eqn:Hf; [eauto |].
  rewrite (find_none f l Hf x Hin) in Hx; discriminate.
Qed.

(** C9: a result already favorited (by result id) leaves the store
    unchanged; adding the same result twice, at any two clock values,
    stores what adding it once stores; a call never grows the list past
    MAX_FAVORITES (100), and a list it writes has at most 100 entries. *)
Theorem addToFavorites_idempotent (now now' : Z) (res : SearchResult) (env : Env) :
  ((exists fav, In fav (getFavorites env) /\ sr_id (fav_result fav) = sr_id res) ->
     addToFavorites now res env = env) /\
  addToFavorites now' res (addToFavorites now res env) = addToFavorites now res env /\
  ((List.length (getFavorites env) <= MAX_FAVORITES)%nat ->
     (List.length (getFavorites (addToFavorites now res env)) <= MAX_FAVORITES)%nat) /\
  (addToFavorites now res env <> env ->
     (List.length (getFavorites (addToFavorites now res env)) <= MAX_FAVORITES)%nat).
Proof.
  destruct env as [| st]; [repeat split; auto; simpl; lia |].
  pose (p := fun fav => id_eqb (sr_id (fav_result fav)) (sr_id res)).
  assert (Hself : id_eqb (sr_id res) (sr_id res) = true) by (apply id_eqb_true; reflexivity).
  destruct (find p (read_slot (favorites_slot st))) as [y |] eqn:Hfind.
  - assert (Heq : forall t, addToFavorites t res (Browser st) = Browser st)
      by (intros t; unfold addToFavorites; fold p; rewrite Hfind; reflexivity).
    rewrite !Heq; repeat split; auto; intros; congruence.
  - assert (Heq : exists nf, fav_result nf = res /\
              addToFavorites now res (Browser st) =
              Browser {| favorites_slot :=
                           Stored (firstn MAX_FAVORITES (nf :: read_slot (favorites_slot st)));
                         saved_searches_slot := saved_searches_slot st |}).
    { unfold addToFavorites; fold p; rewrite Hfind.
      eexists; split; [| reflexivity]; reflexivity. }
    destruct Heq as (nf & Hnf & Heq); rewrite Heq.
    repeat split.
    + intros (fav & Hin & Hid).
      cbn [getFavorites] in Hin.
      destruct (find_some_of_in p _ fav Hin) as [y Hy]; [apply id_eqb_true; exact Hid |].
      rewrite Hfind in Hy; discriminate.
    + unfold addToFavorites; cbn [read_slot favorites_slot].
      unfold MAX_FAVORITES; rewrite firstn_cons; cbn [find].
      rewrite Hnf, Hself; reflexivity.
    + intros _; cbn [getFavorites read_slot favorites_slot]; apply firstn_le_length.
    + intros _; cbn [getFavorites read_slot favorites_slot]; apply firstn_le_length.
Qed.


Lemma addToFavorites_idempotent_witness :
  addToFavorites 5 sample_search_result one_favorite_store = one_favorite_store.
Proof.
  refine (proj1 (addToFavorites_idempotent 5 6 sample_search_result one_favorite_store) _).
  eexists; split; [left; reflexivity | reflexivity].
Defined.

End FavoritesFacts.

(* ------------------------------------------------------------------ *)
(** ** Saved-search shortcuts (lib/preferences.ts) *)

Section ShortcutFacts.
Import ClientStorage Scenarios.


Lemma clear_shortcut_cleared key s : has_shortcut key (clear_shortcut key s) = false.
Proof.
  unfold clear_shortcut; destruct (has_shortcut key s) eqn:H; [reflexivity | exact H].
Qed.

Lemma with_shortcut_eta s : with_shortcut s (ss_shortcutKey s) = s.
Proof. destruct s; reflexivity. Qed.

Lemma with_shortcut_twice s k k' : with_shortcut (with_shortcut s k) k' = with_shortcut s k'.
Proof. reflexivity. Qed.

Lemma filter_all_false {A} (f : A -> bool) (l : list A) :
  (forall x, In x l -> f x = false) -> List.filter f l = [].
Proof.
  induction l as [| x l IH]; simpl; intros H; [reflexivity |].
  rewrite (H x (or_introl eq_refl)); apply IH; auto.
Qed.

Lemma assign_to_first_count searchId key l :
  (forall s, In s l -> has_shortcut key s = false) ->
  (List.length (List.filter (has_shortcut key) (assign_to_first searchId key l)) <= 1)%nat.
Proof.
  induction l as [| s l IH]; simpl; intros H; [lia |].
  destruct (String.eqb (ss_id s) searchId); simpl.
  - unfold has_shortcut at 1; simpl; rewrite Z.eqb_refl; simpl.
    rewrite filter_all_false by auto; simpl; lia.
  - rewrite (H s (or_introl eq_refl)); apply IH; auto.
Qed.

Lemma assign_to_first_length searchId key l :
  List.length (assign_to_first searchId key l) = List.length l.
Proof.
  induction l as [| s l IH]; simpl; [reflexivity |].
  destruct (String.eqb (ss_id s) searchId); simpl; congruence.
Qed.

Lemma assign_to_first_nth searchId key l j s s' :
  nth_error l j = Some s -> nth_error (assign_to_first searchId key l) j = Some s' ->
  s' = s \/ (s' = with_shortcut s (Some key) /\ ss_id s = searchId).
Proof.
  revert j; induction l as [| x l IH]; intros j Hs Hs'; [destruct j; discriminate |].
  simpl in Hs'.
  destruct (String.eqb (ss_id x) searchId) eqn:Hid; destruct j as [| j]; simpl in *.
  - right; apply String.eqb_eq in Hid; split; congruence.
  - left; congruence.
  - left; congruence.
  - eapply IH; eauto.
Qed.

(** C10: after [assignShortcutKey searchId key], at most one stored saved
    search has shortcutKey [key]; the list keeps its length, every stored
    search differs from its previous version at most in its shortcutKey,
    and a search with another id has its shortcutKey cleared if it was
    [key] and otherwise kept. *)
Theorem assignShortcutKey_unique (searchId : string) (key : Z) (env : Env) :
  let old := getSavedSearches env in
  let new := getSavedSearches (assignShortcutKey searchId key env) in
  (List.length (List.filter (has_shortcut key) new) <= 1)%nat /\
  List.length new = List.length old /\
  (forall j s s', nth_error old j = Some s -> nth_error new j = Some s' ->
     s' = with_shortcut s (ss_shortcutKey s') /\
     (ss_id s <> searchId ->
        ss_shortcutKey s' = if has_shortcut key s then None else ss_shortcutKey s)).
Proof.
  destruct env as [| st]; simpl.
  { split; [lia | split; [reflexivity |]]. intros j s s' H; destruct j; discriminate. }
  set (old := read_slot (saved_searches_slot st)).
  fold (clear_shortcut key).
  split.
  { apply assign_to_first_count.
    intros s Hin; apply in_map_iff in Hin as (x & <- & _); apply clear_shortcut_cleared. }
  split; [rewrite assign_to_first_length, length_map; reflexivity |].
  intros j s s' Hs Hs'.
  assert (Hc : nth_error (map (clear_shortcut key) old) j = Some (clear_shortcut key s))
    by (rewrite nth_error_map, Hs; reflexivity).
  destruct (assign_to_first_nth _ _ _ _ _ _ Hc Hs') as [-> | [-> Hid]].
  - unfold clear_shortcut; destruct (has_shortcut key s).
    + split; [reflexivity | intros; reflexivity].
    + split; [symmetry; apply with_shortcut_eta | intros; reflexivity].
  - unfold clear_shortcut in *; destruct (has_shortcut key s); simpl in *.
    + split; [reflexivity | intros Hne; contradiction].
    + split; [reflexivity | intros Hne; contradiction].
Qed.


Lemma assignShortcutKey_unique_witness :
  ss_shortcutKey (sample_saved "a" None) =
    if has_shortcut 3 (sample_saved "a" (Some 3%Z)) then None
    else ss_shortcutKey (sample_saved "a" (Some 3%Z)).
Proof.
  refine (proj2 (proj2 (proj2 (assignShortcutKey_unique "b" 3 two_saved_searches))
                  0%nat _ _ eq_refl eq_refl) _).
  discriminate.
Defined.

End ShortcutFacts.


Section PaletteFacts.
Import ColorExtraction ColorPalette ColorChecks.
Open Scope Z_scope.

Lemma byte_range_in (x : Z) :
  0 <= x <= 255 -> In x (map Z.of_nat (seq 0 256)).
Proof.
  intros Hx. apply in_map_iff. exists (Z.to_nat x). split; [lia |].
  apply in_seq. lia.
Qed.

Lemma hex_channel_byte (x : Z) : 0 <= x <= 255 ->
  exists c1 c2, hex_channel (Some x) = String c1 (String c2 EmptyString) /\
                hex_byte c1 c2 = Some x.
Proof.
  intros Hx.
  assert (Hall : forallb channel_roundtrips (map Z.of_nat (seq 0 256)) = true)
    by (vm_compute; reflexivity).
  rewrite forallb_forall in Hall.
  specialize (Hall x (byte_range_in x Hx)). unfold channel_roundtrips in Hall.
  destruct (hex_channel (Some x)) as [| c1 [| c2 [| c3 t]]]; try discriminate.
  exists c1, c2. split; [reflexivity |].
  destruct (hex_byte c1 c2) as [v |]; [| discriminate].
  apply Z.eqb_eq in Hall. subst. reflexivity.
Qed.

Lemma hexToRgb_rgbToHex (x y z : Z) :
  0 <= x <= 255 -> 0 <= y <= 255 -> 0 <= z <= 255 ->
  hexToRgb (rgbToHex (Some x) (Some y) (Some z)) = Some {| r := x; g := y; b := z |}.
Proof.
  intros Hx Hy Hz.
  destruct (hex_channel_byte x Hx) as (a1 & a2 & Ha & Hab).
  destruct (hex_channel_byte y Hy) as (b1 & b2 & Hb & Hbb).
  destruct (hex_channel_byte z Hz) as (c1 & c2 & Hc & Hcb).
  unfold rgbToHex. rewrite Ha, Hb, Hc. cbn.
  rewrite Hab, Hbb, Hcb. reflexivity.
Qed.

(** [rgbToHex] on three channels in [0, 255] gives a string that
    [hexToRgb] parses back to the same channels. *)
Theorem rgbToHex_roundtrip (x y z : Z) :
  0 <= x <= 255 -> 0 <= y <= 255 -> 0 <= z <= 255 ->
  hexToRgb (rgbToHex (Some x) (Some y) (Some z)) = Some {| r := x; g := y; b := z |}.
Proof. apply hexToRgb_rgbToHex. Qed.

Lemma rgbToHex_roundtrip_witness :
  hexToRgb (rgbToHex (Some 255) (Some 0) (Some 16)) = Some {| r := 255; g := 0; b := 16 |}.
Proof. apply rgbToHex_roundtrip; lia. Defined.

Lemma hex_body_length (s : string) (c : RGB) : hex_body s = Some c -> String.length s = 6%nat.
Proof.
  unfold hex_body.
  repeat match goal with
         | |- match ?s with EmptyString => _ | String _ _ => _ end = _ -> _ =>
             destruct s; try discriminate
         end.
  reflexivity.
Qed.

Lemma hexToRgb_length (hex : string) (c : RGB) :
  hexToRgb hex = Some c -> (String.length hex <= 7)%nat.
Proof.
  unfold hexToRgb.
  destruct hex as [| a rest]; [intros H; apply hex_body_length in H; simpl in H; lia |].
  destruct (Ascii.ascii_dec a "#") as [-> | Hne].
  - destruct (hex_body rest) eqn:Hb.
    + intros _. apply hex_body_length in Hb. simpl. lia.
    + intros H; apply hex_body_length in H; lia.
  - assert (Hd : hexToRgb (String a rest) = hex_body (String a rest)).
    { destruct a as [[] [] [] [] [] [] [] []]; try reflexivity; exfalso; apply Hne; reflexivity. }
    unfold hexToRgb in Hd. rewrite Hd. intros H; apply hex_body_length in H; lia.
Qed.

Lemma quantize_byte (x : Z) : 0 <= x <= 255 ->
  exists q, quantize (Some x) = Some q /\
    (x < 240 -> 0 <= q <= 224) /\ (240 <= x -> String.length (hex_channel (Some q)) = 3%nat).
Proof.
  intros Hx.
  assert (Hall : forallb quantized_width (map Z.of_nat (seq 0 256)) = true)
    by (vm_compute; reflexivity).
  rewrite forallb_forall in Hall.
  specialize (Hall x (byte_range_in x Hx)). unfold quantized_width in Hall.
  destruct (quantize (Some x)) as [q |] eqn:Hq; [| discriminate].
  exists q. split; [reflexivity |].
  destruct (x <? 240) eqn:Hlt.
  - apply Z.ltb_lt in Hlt. rewrite andb_true_iff, !Z.leb_le in Hall. split; [lia | lia].
  - apply Z.ltb_ge in Hlt. apply Nat.eqb_eq in Hall. split; [lia | auto].
Qed.

Lemma string_length_app (s1 s2 : string) :
  String.length (s1 ++ s2) = (String.length s1 + String.length s2)%nat.
Proof. induction s1 as [| c s1 IH]; simpl; [reflexivity | rewrite IH; reflexivity]. Qed.

Lemma to_hex_aux_length (f : nat) (n : Z) (acc : string) :
  (String.length acc < String.length (to_hex_aux (S f) n acc))%nat.
Proof.
  revert n acc. induction f as [| f IH]; intros n acc; simpl.
  - destruct (n <? 16); simpl; lia.
  - destruct (n <? 16); [simpl; lia |].
    specialize (IH (n / 16) (String (hex_char (n mod 16)) acc)). simpl in IH. lia.
Qed.

Lemma hex_channel_length_ge2 (x : option Z) : (2 <= String.length (hex_channel x))%nat.
Proof.
  destruct x as [v |]; [| simpl; lia].
  unfold hex_channel. cbv zeta.
  pose proof (to_hex_aux_length (Z.to_nat v) v EmptyString) as Hl.
  fold (toString16 v) in Hl. simpl in Hl.
  destruct (Nat.eqb (String.length (toString16 v)) 1) eqn:H.
  - simpl. apply Nat.eqb_eq in H. lia.
  - apply Nat.eqb_neq in H. lia.
Qed.

(** A palette colour ([rgbToHex] of quantised channels) parses back to
    the quantised channels when every channel is below 240; a channel of
    240 or more rounds to 256, rendered with three digits, so the colour
    does not parse: [getColorName] calls it "Unknown" and [isLightColor]
    calls it light. *)
Theorem rgbToHex_quantized_parse (x y z : Z) :
  0 <= x <= 255 -> 0 <= y <= 255 -> 0 <= z <= 255 ->
  let hex := rgbToHex (quantize (Some x)) (quantize (Some y)) (quantize (Some z)) in
  (x < 240 /\ y < 240 /\ z < 240 ->
     hexToRgb hex = Some {| r := (x + 16) / 32 * 32; g := (y + 16) / 32 * 32;
                            b := (z + 16) / 32 * 32 |}) /\
  (240 <= x \/ 240 <= y \/ 240 <= z ->
     hexToRgb hex = None /\ getColorName hex = "Unknown"%string /\ isLightColor hex = true).
Proof.
  intros Hx Hy Hz hex.
  destruct (quantize_byte x Hx) as (qx & Hqx & Hx1 & Hx2).
  destruct (quantize_byte y Hy) as (qy & Hqy & Hy1 & Hy2).
  destruct (quantize_byte z Hz) as (qz & Hqz & Hz1 & Hz2).
  simpl in Hqx, Hqy, Hqz. injection Hqx as Hqx. injection Hqy as Hqy. injection Hqz as Hqz.
  subst hex. simpl quantize. rewrite Hqx, Hqy, Hqz.
  split.
  - intros (Lx & Ly & Lz).
    specialize (Hx1 Lx); specialize (Hy1 Ly); specialize (Hz1 Lz).
    apply hexToRgb_rgbToHex; lia.
  - intros Hbig.
    assert (Hnone : hexToRgb (rgbToHex (Some qx) (Some qy) (Some qz)) = None).
    { destruct (hexToRgb (rgbToHex (Some qx) (Some qy) (Some qz))) as [c |] eqn:Hc; [| reflexivity].
      apply hexToRgb_length in Hc. exfalso.
      unfold rgbToHex in Hc.
      change (String.length (String "#" ?s)) with (S (String.length s)) in Hc.
      rewrite !string_length_app in Hc.
      pose proof (hex_channel_length_ge2 (Some qx)).
      pose proof (hex_channel_length_ge2 (Some qy)).
      pose proof (hex_channel_length_ge2 (Some qz)).
      destruct Hbig as [B | [B | B]];
        [specialize (Hx2 B) | specialize (Hy2 B) | specialize (Hz2 B)]; lia. }
    unfold getColorName, isLightColor. rewrite Hnone. auto.
Qed.
Lemma count_of_cons (k k' : string) (n : nat) (m : list (string * nat)) :
  count_of k ((k', n) :: m) = if String.eqb k' k then n else count_of k m.
Proof. unfold count_of; simpl. destruct (String.eqb k' k); reflexivity. Qed.

Lemma bump_count_of (c k : string) (m : list (string * nat)) :
  count_of k (bump c m) = (count_of k m + if String.eqb c k then 1 else 0)%nat.
Proof.
  induction m as [| [k' n] m IH]; simpl.
  - unfold count_of; simpl. destruct (String.eqb c k); reflexivity.
  - destruct (String.eqb k' c) eqn:E.
    + apply String.eqb_eq in E; subst k'. rewrite !count_of_cons.
      destruct (String.eqb c k); lia.
    + rewrite !count_of_cons, IH.
      destruct (String.eqb k' k) eqn:E2; [| reflexivity].
      apply String.eqb_eq in E2; subst k'.
      destruct (String.eqb c k) eqn:E3; [| lia].
      apply String.eqb_eq in E3; subst. rewrite String.eqb_refl in E. discriminate.
Qed.

Lemma bump_keys (c k : string) (m : list (string * nat)) :
  In k (map fst (bump c m)) <-> k = c \/ In k (map fst m).
Proof.
  induction m as [| [k' n] m IH]; simpl.
  - split; intros [H | H]; auto.
  - destruct (String.eqb k' c) eqn:E; simpl.
    + apply String.eqb_eq in E; subst k'.
      split; [intros [H | H]; auto | intros [H | [H | H]]; auto].
    + rewrite IH. tauto.
Qed.

Lemma bump_nodup (c : string) (m : list (string * nat)) :
  NoDup (map fst m) -> NoDup (map fst (bump c m)).
Proof.
  induction m as [| [k' n] m IH]; simpl; intros Hnd.
  - constructor; [intros [] | constructor].
  - inversion Hnd as [| ? ? Hnin Hnd']; subst.
    destruct (String.eqb k' c) eqn:E; simpl; constructor; auto.
    rewrite bump_keys. intros [-> | Hin]; [| contradiction].
    rewrite String.eqb_refl in E; discriminate.
Qed.

Lemma bump_all_count_of (l : list string) (m : list (string * nat)) (k : string) :
  count_of k (bump_all l m) = (count_of k m + count_occ string_dec l k)%nat.
Proof.
  revert m; induction l as [| c l IH]; intros m; simpl; [lia |].
  unfold bump_all in *; simpl. rewrite IH, bump_count_of.
  destruct (string_dec c k) as [-> | Hne].
  - rewrite String.eqb_refl; lia.
  - apply String.eqb_neq in Hne; rewrite Hne; lia.
Qed.

Lemma bump_all_keys (l : list string) (m : list (string * nat)) (k : string) :
  In k (map fst (bump_all l m)) <-> In k l \/ In k (map fst m).
Proof.
  revert m; induction l as [| c l IH]; intros m; unfold bump_all in *; simpl; [tauto |].
  rewrite IH, bump_keys. split; intros H; decompose [or] H; subst; tauto.
Qed.

Lemma bump_all_nodup (l : list string) (m : list (string * nat)) :
  NoDup (map fst m) -> NoDup (map fst (bump_all l m)).
Proof.
  revert m; induction l as [| c l IH]; intros m Hnd; unfold bump_all in *; simpl; auto.
  apply IH, bump_nodup, Hnd.
Qed.

Lemma count_of_in (m : list (string * nat)) (k : string) (n : nat) :
  NoDup (map fst m) -> In (k, n) m -> count_of k m = n.
Proof.
  induction m as [| [k' n'] m IH]; simpl; [intros _ [] |].
  intros Hnd Hin; inversion Hnd as [| ? ? Hnin Hnd']; subst.
  rewrite count_of_cons.
  destruct Hin as [E | Hin].
  - injection E as -> ->. rewrite String.eqb_refl. reflexivity.
  - destruct (String.eqb k' k) eqn:E.
    + apply String.eqb_eq in E; subst k'. exfalso; apply Hnin.
      apply in_map_iff; exists (k, n); auto.
    + auto.
Qed.

Lemma count_colors_bump_all (fuel : nat) (px : list Z) (m : list (string * nat)) :
  count_colors fuel px m = bump_all (sampled_colors fuel px) m.
Proof.
  revert px m; induction fuel as [| f IH]; intros px m; [reflexivity |].
  destruct px as [| p0 px']; [reflexivity |].
  cbn [count_colors sampled_colors].
  unfold bump_all; rewrite fold_left_app; fold (bump_all (sampled_colors f (skipn 16 (p0 :: px')))).
  rewrite IH.
  destruct (nth_error (p0 :: px') 3) as [a |]; [destruct (a <? 128) |]; reflexivity.
Qed.

Lemma sampled_colors_origin (fuel : nat) (px : list Z) (c : string) :
  In c (sampled_colors fuel px) ->
  exists k : nat, (16 * k < List.length px)%nat /\
    (forall a, nth_error px (16 * k + 3) = Some a -> 128 <= a) /\
    c = rgbToHex (quantize (nth_error px (16 * k)))
                 (quantize (nth_error px (16 * k + 1)))
                 (quantize (nth_error px (16 * k + 2))).
Proof.
  revert px; induction fuel as [| f IH]; intros px; [intros [] |].
  destruct px as [| p0 px']; [intros [] |].
  cbn [sampled_colors]. intros Hin. apply in_app_or in Hin. destruct Hin as [Hin | Hin].
  - exists 0%nat. simpl (16 * 0)%nat. split; [simpl; lia |].
    destruct (nth_error (p0 :: px') 3) as [a |] eqn:Ha.
    + destruct (a <? 128) eqn:Hlt; [destruct Hin |].
      destruct Hin as [<- | []]. split; [| reflexivity].
      intros a'; simpl (0 + 3)%nat; rewrite Ha; intros E; injection E as <-.
      apply Z.ltb_ge in Hlt; exact Hlt.
    + destruct Hin as [<- | []]. split; [| reflexivity].
      simpl (0 + 3)%nat; rewrite Ha; discriminate.
  - destruct (IH _ Hin) as (k & Hk & Ha & Hc).
    repeat rewrite nth_error_skipn in Ha; repeat rewrite nth_error_skipn in Hc. rewrite length_skipn in Hk.
    exists (S k). split; [simpl List.length in *; lia |].
    replace (16 * S k)%nat with (16 + 16 * k)%nat by lia.
    rewrite <- !Nat.add_assoc. auto.
Qed.

Lemma insert_by_count_perm (e : string * nat) (l : list (string * nat)) :
  Permutation (insert_by_count e l) (e :: l).
Proof.
  induction l as [| e' l IH]; simpl; [auto |].
  destruct (Nat.leb (snd e') (snd e)); [auto |].
  eapply perm_trans; [apply perm_skip, IH | apply perm_swap].
Qed.

Lemma sort_by_count_perm (l : list (string * nat)) : Permutation (sort_by_count l) l.
Proof.
  induction l as [| e l IH]; simpl; [auto |].
  eapply perm_trans; [apply insert_by_count_perm | apply perm_skip, IH].
Qed.

Lemma insert_by_count_hdrel (a e : string * nat) (l : list (string * nat)) :
  by_count a e -> HdRel by_count a l -> HdRel by_count a (insert_by_count e l).
Proof.
  intros Hae Hl. destruct l as [| e' l]; simpl; [auto |].
  destruct (Nat.leb (snd e') (snd e)); constructor; auto.
  inversion Hl; auto.
Qed.

Lemma insert_by_count_sorted (e : string * nat) (l : list (string * nat)) :
  Sorted by_count l -> Sorted by_count (insert_by_count e l).
Proof.
  induction l as [| e' l IH]; simpl; intros Hs; [auto |].
  destruct (Nat.leb (snd e') (snd e)) eqn:E.
  - constructor; [exact Hs | constructor; apply Nat.leb_le, E].
  - inversion Hs as [| ? ? Hs' Hhd]; subst.
    constructor; [apply IH, Hs' |].
    apply insert_by_count_hdrel; [| exact Hhd].
    apply Nat.leb_gt in E. unfold by_count; lia.
Qed.

Lemma sort_by_count_sorted (l : list (string * nat)) : StronglySorted by_count (sort_by_count l).
Proof.
  apply Sorted_StronglySorted; [unfold Relations_1.Transitive, by_count; intros; lia |].
  induction l as [| e l IH]; simpl; [constructor |].
  apply insert_by_count_sorted, IH.
Qed.

Lemma strongly_sorted_app {A : Type} (R : A -> A -> Prop) (l1 l2 : list A) :
  StronglySorted R (l1 ++ l2) ->
  StronglySorted R l1 /\ (forall x y, In x l1 -> In y l2 -> R x y).
Proof.
  induction l1 as [| a l1 IH]; simpl; intros Hs.
  - split; [constructor | intros _ _ []].
  - inversion Hs as [| ? ? Hs' Hall]; subst.
    destruct (IH Hs') as [H1 H2]. split.
    + constructor; [exact H1 |]. rewrite Forall_forall in *. intros x Hx; apply Hall, in_or_app; auto.
    + intros x y [<- | Hx] Hy; [| auto]. rewrite Forall_forall in Hall; apply Hall, in_or_app; auto.
Qed.

Lemma strongly_sorted_map {A B : Type} (R : A -> A -> Prop) (R' : B -> B -> Prop) (f : A -> B) (l : list A) :
  (forall x y, In x l -> In y l -> R x y -> R' (f x) (f y)) ->
  StronglySorted R l -> StronglySorted R' (map f l).
Proof.
  induction l as [| a l IH]; simpl; intros Hf Hs; [constructor |].
  inversion Hs as [| ? ? Hs' Hall]; subst. constructor.
  - apply IH; [intros x y Hx Hy; apply Hf; auto | exact Hs'].
  - rewrite Forall_forall in *. intros y Hy. apply in_map_iff in Hy.
    destruct Hy as (x & <- & Hx). apply Hf; auto.
Qed.

(** [extractDominantColors] returns at most [count] colours, without
    repetition, each counted at a sampled opaque pixel, in order of
    decreasing count; a sampled colour left out is counted no more often
    than any colour returned. *)
Theorem extractDominantColors_dominant (pixels : list Z) (count : nat) :
  let out := extractDominantColors pixels count in
  let sampled := sampled_colors (List.length pixels) pixels in
  (List.length out <= count)%nat /\
  NoDup out /\
  (forall c, In c out -> In c sampled) /\
  (forall c c', In c out -> In c' sampled -> ~ In c' out ->
     (count_occ string_dec sampled c' <= count_occ string_dec sampled c)%nat) /\
  StronglySorted (fun c d => (count_occ string_dec sampled d <= count_occ string_dec sampled c)%nat) out.
Proof.
  intros out sampled.
  set (M := count_colors (List.length pixels) pixels []).
  set (T := sort_by_count M).
  assert (HM : M = bump_all sampled []) by apply count_colors_bump_all.
  assert (Hnd : NoDup (map fst M)) by (rewrite HM; apply bump_all_nodup; constructor).
  assert (Hkeys : forall k, In k (map fst M) <-> In k sampled).
  { intros k; rewrite HM, bump_all_keys; simpl; tauto. }
  assert (Hval : forall k n, In (k, n) M -> n = count_occ string_dec sampled k).
  { intros k n Hin. rewrite <- (count_of_in M k n Hnd Hin), HM, bump_all_count_of. reflexivity. }
  assert (Hperm : Permutation T M) by apply sort_by_count_perm.
  assert (HndT : NoDup (map fst T)) by (eapply Permutation_NoDup; [apply Permutation_map, Permutation_sym, Hperm | exact Hnd]).
  assert (Hsorted : StronglySorted by_count T) by apply sort_by_count_sorted.
  assert (HvalT : forall k n, In (k, n) T -> n = count_occ string_dec sampled k).
  { intros k n Hin; apply Hval; eapply Permutation_in; [exact Hperm | exact Hin]. }
  assert (Hout : out = map fst (firstn count T)) by reflexivity.
  assert (Hsplit : T = firstn count T ++ skipn count T) by (symmetry; apply firstn_skipn).
  assert (Hfirst : forall c, In c out -> exists n, In (c, n) (firstn count T)).
  { intros c Hc; rewrite Hout in Hc; apply in_map_iff in Hc. destruct Hc as ([k n] & <- & Hin).
    exists n; exact Hin. }
  split; [| split; [| split; [| split]]].
  - rewrite Hout, length_map. apply firstn_le_length.
  - rewrite Hout, <- firstn_map.
    apply (NoDup_app_remove_r _ (skipn count (map fst T))).
    rewrite firstn_skipn. exact HndT.
  - intros c Hc. destruct (Hfirst c Hc) as (n & Hin).
    apply Hkeys, in_map_iff. exists (c, n); split; [reflexivity |].
    eapply Permutation_in; [exact Hperm |].
    rewrite Hsplit; apply in_or_app; left; exact Hin.
  - intros c c' Hc Hc' Hnot. destruct (Hfirst c Hc) as (n & Hin).
    apply Hkeys, in_map_iff in Hc'. destruct Hc' as ([k' n'] & Ek & Hin').
    simpl in Ek; subst k'.
    apply (Permutation_in _ (Permutation_sym Hperm)) in Hin'.
    assert (Hin2 : In (c', n') (skipn count T)).
    { rewrite Hsplit in Hin'. apply in_app_or in Hin'. destruct Hin' as [H | H]; [| exact H].
      exfalso; apply Hnot. rewrite Hout; apply in_map_iff; exists (c', n'); auto. }
    rewrite Hsplit in Hsorted. apply strongly_sorted_app in Hsorted.
    destruct Hsorted as [_ Hcross]. specialize (Hcross _ _ Hin Hin2). unfold by_count in Hcross.
    simpl in Hcross.
    rewrite <- (HvalT c n), <- (HvalT c' n'); [exact Hcross | |];
      rewrite Hsplit; apply in_or_app; auto.
  - rewrite Hout. rewrite Hsplit in Hsorted. apply strongly_sorted_app in Hsorted.
    destruct Hsorted as [Hs _].
    apply (strongly_sorted_map by_count); [| exact Hs].
    intros [k1 n1] [k2 n2] H1 H2 H12. unfold by_count in H12; simpl in *.
    rewrite <- (HvalT k1 n1), <- (HvalT k2 n2); [exact H12 | |];
      rewrite Hsplit; apply in_or_app; auto.
Qed.

Lemma in_firstn_in {A : Type} (n : nat) (l : list A) (x : A) : In x (firstn n l) -> In x l.
Proof. intros H. rewrite <- (firstn_skipn n l). apply in_or_app; auto. Qed.

Lemma extract_in_sampled (pixels : list Z) (count : nat) (c : string) :
  In c (extractDominantColors pixels count) -> In c (sampled_colors (List.length pixels) pixels).
Proof.
  unfold extractDominantColors. intros Hin.
  apply in_map_iff in Hin. destruct Hin as ([k n] & Ek & Hin). simpl in Ek; subst k.
  apply in_firstn_in in Hin.
  apply (Permutation_in _ (sort_by_count_perm _)) in Hin.
  rewrite count_colors_bump_all in Hin.
  assert (Hk : In c (map fst (bump_all (sampled_colors (List.length pixels) pixels) [])))
    by (apply in_map_iff; exists (c, n); auto).
  apply bump_all_keys in Hk. destruct Hk as [Hk | []]; exact Hk.
Qed.

(** Every colour [extractDominantColors] returns is [rgbToHex] of the
    quantised channels of a pixel at an index that is a multiple of 16,
    whose alpha is not below 128. *)
Theorem extractDominantColors_origin (pixels : list Z) (count : nat) (c : string) :
  In c (extractDominantColors pixels count) ->
  exists k : nat, (16 * k < List.length pixels)%nat /\
    (forall a, nth_error pixels (16 * k + 3) = Some a -> 128 <= a) /\
    c = rgbToHex (quantize (nth_error pixels (16 * k)))
                 (quantize (nth_error pixels (16 * k + 1)))
                 (quantize (nth_error pixels (16 * k + 2))).
Proof.
  intros Hin. apply sampled_colors_origin with (fuel := List.length pixels).
  apply (extract_in_sampled pixels count c Hin).
Qed.

Lemma extractDominantColors_origin_witness :
  exists k : nat, (16 * k < 20)%nat /\
    (forall a, nth_error [250; 0; 20; 255; 0; 0; 0; 0; 0; 0; 0; 0; 0; 0; 0; 0; 9; 9; 9; 0] (16 * k + 3) = Some a -> 128 <= a) /\
    "#1000020"%string = rgbToHex (quantize (nth_error [250; 0; 20; 255; 0; 0; 0; 0; 0; 0; 0; 0; 0; 0; 0; 0; 9; 9; 9; 0] (16 * k)))
                 (quantize (nth_error [250; 0; 20; 255; 0; 0; 0; 0; 0; 0; 0; 0; 0; 0; 0; 0; 9; 9; 9; 0] (16 * k + 1)))
                 (quantize (nth_error [250; 0; 20; 255; 0; 0; 0; 0; 0; 0; 0; 0; 0; 0; 0; 0; 9; 9; 9; 0] (16 * k + 2))).
Proof.
  apply (extractDominantColors_origin [250; 0; 20; 255; 0; 0; 0; 0; 0; 0; 0; 0; 0; 0; 0; 0; 9; 9; 9; 0] 5).
  vm_compute. left. reflexivity.
Defined.
Lemma rgbToHex_quantized_parse_witness :
  let hex := rgbToHex (quantize (Some 250)) (quantize (Some 0)) (quantize (Some 20)) in
  (250 < 240 /\ 0 < 240 /\ 20 < 240 ->
     hexToRgb hex = Some {| r := (250 + 16) / 32 * 32; g := (0 + 16) / 32 * 32;
                            b := (20 + 16) / 32 * 32 |}) /\
  (240 <= 250 \/ 240 <= 0 \/ 240 <= 20 ->
     hexToRgb hex = None /\ getColorName hex = "Unknown"%string /\ isLightColor hex = true).
Proof. apply rgbToHex_quantized_parse; lia. Defined.

(** A colour named "White" is light and a colour named "Black" is
    not. *)
Theorem getColorName_isLightColor (hex : string) :
  (getColorName hex = "White"%string -> isLightColor hex = true) /\
  (getColorName hex = "Black"%string -> isLightColor hex = false).
Proof.
  unfold getColorName, isLightColor.
  destruct (hexToRgb hex) as [[x y z] |]; cbn beta iota zeta; [| split; discriminate].
  simpl r; simpl g; simpl b.
  split; intros H;
    repeat match type of H with
           | context [if ?c then _ else _] => destruct c eqn:?; try discriminate
           end;
    repeat match goal with
           | E : (_ <? _) = true |- _ => apply Z.ltb_lt in E
           | E : (_ <? _) = false |- _ => apply Z.ltb_ge in E
           end;
    [apply Z.ltb_lt | apply Z.ltb_ge]; lia.
Qed.
End PaletteFacts.


Section FavoritesApiFacts.
Import ClientStorage Favorites.

Lemma id_eqb_some_refl (s : string) : id_eqb (Some s) (Some s) = true.
Proof. simpl. apply String.eqb_refl. Qed.

Lemma id_eqb_eq (a b : option string) : id_eqb a b = true <-> a = b.
Proof.
  destruct a as [x |], b as [y |]; simpl; try (split; congruence).
  rewrite String.eqb_eq; split; congruence.
Qed.

Lemma find_none_forall {A} (f : A -> bool) (l : list A) :
  find f l = None -> forall x, In x l -> f x = false.
Proof.
  induction l as [| a l IH]; simpl; [intros _ _ [] |].
  destruct (f a) eqn:Ha; [discriminate |].
  intros Hn x [<- | Hx]; auto.
Qed.

Lemma existsb_false_find {A} (f : A -> bool) (l : list A) :
  existsb f l = false -> find f l = None.
Proof.
  induction l as [| a l IH]; simpl; [reflexivity |].
  destruct (f a); simpl; [discriminate | exact IH].
Qed.

Lemma filter_id_all {A} (f : A -> bool) (l : list A) :
  (forall x, In x l -> f x = true) -> filter f l = l.
Proof.
  induction l as [| a l IH]; simpl; intros H; [reflexivity |].
  rewrite (H a (or_introl eq_refl)), IH; auto.
Qed.

Lemma firstn_max_favorites {A} (x : A) (l : list A) :
  firstn MAX_FAVORITES (x :: l) = x :: firstn (MAX_FAVORITES - 1) l.
Proof. reflexivity. Qed.

(** Saving a result with an id, then asking whether that id is a
    favorite, answers yes. *)
Theorem isFavorited_after_add (now : Z) (result : SearchResult) (st : Storage) (s : string) :
  sr_id result = Some s ->
  isFavorited s (addToFavorites now result (Browser st)) = true.
Proof.
  intros Hid. unfold addToFavorites.
  destruct (find _ _) as [f |] eqn:Hf.
  - apply find_some in Hf. destruct Hf as [Hin Hf].
    unfold isFavorited; simpl. apply existsb_exists. exists f. split; [exact Hin |].
    rewrite <- Hid. exact Hf.
  - unfold isFavorited, getFavorites, read_slot. cbn [favorites_slot].
    rewrite firstn_max_favorites. cbn [existsb fav_result]. rewrite Hid, id_eqb_some_refl. reflexivity.
Qed.

(** After [removeFromFavorites resultId] the id is no longer a favorite,
    and the favorites are the previous ones without that id. *)
Theorem removeFromFavorites_spec (resultId : string) (env : Env) :
  isFavorited resultId (removeFromFavorites resultId env) = false /\
  (forall fav, In fav (getFavorites (removeFromFavorites resultId env)) <->
               In fav (getFavorites env) /\ sr_id (fav_result fav) <> Some resultId).
Proof.
  destruct env as [| st]; [simpl; split; [reflexivity | tauto] |].
  unfold isFavorited, removeFromFavorites. cbn [getFavorites read_slot favorites_slot].
  split.
  - apply Bool.not_true_iff_false. intros Hex. apply existsb_exists in Hex.
    destruct Hex as (f & Hin & Hf). apply filter_In in Hin. destruct Hin as [_ Hn].
    rewrite Hf in Hn. discriminate.
  - intros fav. rewrite filter_In, Bool.negb_true_iff.
    split; intros [H1 H2]; split; auto.
    + intros E. rewrite E, id_eqb_some_refl in H2. discriminate.
    + destruct (id_eqb _ _) eqn:E; [| reflexivity]. apply id_eqb_eq in E. contradiction.
Qed.

(** Toggling the favorite button twice on a result with an id that is
    not a favorite restores the favorites, except that with a full list
    (100 favorites) the oldest one is lost on the way. *)
Theorem handleToggleFavorite_twice (t1 t2 : Z) (result : SearchResult) (st : Storage) (s : string) :
  sr_id result = Some s ->
  isFavorited s (Browser st) = false ->
  handleToggleFavorite t2 result (handleToggleFavorite t1 result (Browser st)) =
  Browser {| favorites_slot := Stored (firstn (MAX_FAVORITES - 1) (read_slot (favorites_slot st)));
             saved_searches_slot := saved_searches_slot st |}.
Proof.
  intros Hid Hnot.
  assert (Hkey : id_or_empty result = s) by (unfold id_or_empty; rewrite Hid; reflexivity).
  set (l := read_slot (favorites_slot st)).
  assert (Hfalse : forall f, In f l -> id_eqb (sr_id (fav_result f)) (Some s) = false).
  { intros f Hf. unfold isFavorited in Hnot. simpl in Hnot.
    destruct (id_eqb _ _) eqn:E; [| reflexivity].
    assert (existsb (fun fav => id_eqb (sr_id (fav_result fav)) (Some s)) l = true)
      by (apply existsb_exists; eauto).
    fold l in Hnot. congruence. }
  unfold handleToggleFavorite at 2. rewrite Hkey, Hnot.
  unfold addToFavorites. fold l. rewrite Hid.
  rewrite (existsb_false_find _ l Hnot).
  set (nf := {| fav_id := _; fav_result := result; fav_savedAt := t1 |}).
  unfold handleToggleFavorite. rewrite Hkey.
  assert (Hfav : isFavorited s (Browser {| favorites_slot := Stored (firstn MAX_FAVORITES (nf :: l));
                                          saved_searches_slot := saved_searches_slot st |}) = true).
  { unfold isFavorited, getFavorites, read_slot. cbn [favorites_slot].
    rewrite firstn_max_favorites. cbn [existsb]. subst nf. cbn [fav_result].
    rewrite Hid, id_eqb_some_refl. reflexivity. }
  rewrite Hfav. unfold removeFromFavorites, read_slot. cbn [favorites_slot saved_searches_slot].
  rewrite firstn_max_favorites. cbn [filter]. subst nf. cbn [fav_result].
  rewrite Hid, id_eqb_some_refl. cbn [negb].
  rewrite filter_id_all; [reflexivity |].
  intros f Hf. apply in_firstn_in in Hf. rewrite Hfalse; auto.
Qed.

(** A result without an id: once a favorite without an id is stored, and
    no favorite has the id "", the button shows the result as not
    favorited and toggling it changes nothing, so that favorite cannot be
    removed from the modal. *)
Theorem handleToggleFavorite_null_id (now : Z) (result : SearchResult) (st : Storage) :
  sr_id result = None ->
  (forall fav, In fav (read_slot (favorites_slot st)) -> sr_id (fav_result fav) <> Some EmptyString) ->
  (exists fav, In fav (read_slot (favorites_slot st)) /\ sr_id (fav_result fav) = None) ->
  isFavorited (id_or_empty result) (Browser st) = false /\
  handleToggleFavorite now result (Browser st) = Browser st.
Proof.
  intros Hid Hnoempty (f0 & Hf0 & Hnull).
  assert (Hkey : id_or_empty result = EmptyString) by (unfold id_or_empty; rewrite Hid; reflexivity).
  assert (Hnot : isFavorited (id_or_empty result) (Browser st) = false).
  { rewrite Hkey. unfold isFavorited, getFavorites.
    apply Bool.not_true_iff_false. intros Hex. apply existsb_exists in Hex.
    destruct Hex as (f & Hin & Hf). apply id_eqb_eq in Hf. apply (Hnoempty f Hin Hf). }
  split; [exact Hnot |].
  unfold handleToggleFavorite. rewrite Hnot.
  unfold addToFavorites. rewrite Hid.
  destruct (find_some_of_in (fun fav => id_eqb (sr_id (fav_result fav)) None)
              (read_slot (favorites_slot st)) f0 Hf0) as [y Hy];
    [rewrite Hnull; reflexivity |].
  rewrite Hy. reflexivity.
Qed.
End FavoritesApiFacts.

Section FavoritesApiWitnesses.
Import ClientStorage Favorites Scenarios.

Lemma isFavorited_after_add_witness :
  isFavorited "img-1" (addToFavorites 7%Z sample_search_result (Browser empty_storage)) = true.
Proof. apply isFavorited_after_add. reflexivity. Defined.

Lemma handleToggleFavorite_twice_witness :
  handleToggleFavorite 2%Z sample_search_result
    (handleToggleFavorite 1%Z sample_search_result (Browser empty_storage)) =
  Browser {| favorites_slot := Stored (firstn (MAX_FAVORITES - 1) (read_slot (favorites_slot empty_storage)));
             saved_searches_slot := saved_searches_slot empty_storage |}.
Proof. apply (handleToggleFavorite_twice _ _ _ _ "img-1"); reflexivity. Defined.

Lemma handleToggleFavorite_null_id_witness :
  isFavorited (id_or_empty null_id_result) (Browser null_favorite_storage) = false /\
  handleToggleFavorite 9%Z null_id_result (Browser null_favorite_storage) = Browser null_favorite_storage.
Proof.
  apply handleToggleFavorite_null_id.
  - reflexivity.
  - intros fav [<- | []]. simpl. discriminate.
  - eexists; split; [left; reflexivity | reflexivity].
Defined.

End FavoritesApiWitnesses.

Section RecentFacts.
Import ClientStorage RecentSearches.
Variable toLowerCase : string -> string.

Lemma update_existing_none (query now : string) (count : Z) (l : list RecentSearch) :
  update_existing toLowerCase query now count l = None <->
  forall e, In e l -> same_query toLowerCase query e = false.
Proof.
  induction l as [| e l IH]; simpl; [split; [intros _ _ [] | reflexivity] |].
  destruct (same_query toLowerCase query e) eqn:E.
  - split; [discriminate |]. intros H. rewrite H in E; [discriminate | auto].
  - destruct (update_existing toLowerCase query now count l) eqn:Hu; simpl.
    + split; [discriminate |]. intros H. assert (Some l0 = None) by (apply IH; auto). discriminate.
    + split; [| reflexivity]. intros _ x [<- | Hx]; [exact E |]. apply IH; auto.
Qed.

Lemma update_existing_some (query now : string) (count : Z) (l l' : list RecentSearch) :
  update_existing toLowerCase query now count l = Some l' ->
  map rs_query l' = map rs_query l /\ map rs_id l' = map rs_id l /\
  exists e, In e l' /\ same_query toLowerCase query e = true /\
            rs_resultCount e = count /\ rs_searchedAt e = now.
Proof.
  revert l'; induction l as [| e l IH]; intros l'; simpl; [discriminate |].
  destruct (same_query toLowerCase query e) eqn:E.
  - intros H; injection H as <-. simpl. split; [reflexivity | split; [reflexivity |]].
    eexists; split; [left; reflexivity |]. unfold same_query in *; simpl. auto.
  - destruct (update_existing toLowerCase query now count l) as [l0 |] eqn:Hu; simpl; [| discriminate].
    intros H; injection H as <-. destruct (IH l0 eq_refl) as (H1 & H2 & e' & He' & H3).
    simpl. rewrite H1, H2. split; [reflexivity | split; [reflexivity |]].
    exists e'; split; [right; exact He' | exact H3].
Qed.

(** A query already in the recent list (up to case) stays where it is:
    the list keeps its queries, ids and order, and the entry for the
    query carries the new result count and timestamp. *)
Theorem addToRecentSearches_repeat (newId now query : string) (count : Z) (slot : Slot RecentSearch) :
  (List.length (read_slot slot) <= MAX_RECENT_SEARCHES)%nat ->
  (exists e, In e (read_slot slot) /\ same_query toLowerCase query e = true) ->
  let after := getRecentSearches (addToRecentSearches toLowerCase newId now query count (RBrowser slot)) in
  map rs_query after = map rs_query (read_slot slot) /\
  map rs_id after = map rs_id (read_slot slot) /\
  exists e, In e after /\ same_query toLowerCase query e = true /\
            rs_resultCount e = count /\ rs_searchedAt e = now.
Proof.
  intros Hlen (e0 & He0 & Hm) after.
  subst after. unfold addToRecentSearches, getRecentSearches.
  destruct (update_existing toLowerCase query now count (read_slot slot)) as [l' |] eqn:Hu.
  - destruct (update_existing_some _ _ _ _ _ Hu) as (H1 & H2 & H3).
    assert (Hl : List.length l' = List.length (read_slot slot))
      by (rewrite <- (length_map rs_query l'), H1, length_map; reflexivity).
    cbn [read_slot]. rewrite firstn_all2 by lia. auto.
  - rewrite update_existing_none in Hu. rewrite Hu in Hm by exact He0. discriminate.
Qed.

(** A query not in the recent list goes to the front; the list keeps at
    most ten entries, dropping the oldest. *)
Theorem addToRecentSearches_new (newId now query : string) (count : Z) (slot : Slot RecentSearch) :
  (forall e, In e (read_slot slot) -> same_query toLowerCase query e = false) ->
  getRecentSearches (addToRecentSearches toLowerCase newId now query count (RBrowser slot)) =
  {| rs_id := newId; rs_query := query; rs_searchedAt := now; rs_resultCount := count |}
    :: firstn (MAX_RECENT_SEARCHES - 1) (read_slot slot).
Proof.
  intros Hnone. apply update_existing_none with (now := now) (count := count) in Hnone.
  unfold addToRecentSearches, getRecentSearches. rewrite Hnone. reflexivity.
Qed.

End RecentFacts.

Section RecentWitnesses.
Import ClientStorage RecentSearches Scenarios.

Lemma addToRecentSearches_repeat_witness :
  let after := getRecentSearches (addToRecentSearches (fun q => q) "search-3" "2025-02-01"
                                    "sunset" 12%Z (RBrowser two_recent)) in
  map rs_query after = map rs_query (read_slot two_recent) /\
  map rs_id after = map rs_id (read_slot two_recent) /\
  exists e, In e after /\ same_query (fun q => q) "sunset" e = true /\
            rs_resultCount e = 12%Z /\ rs_searchedAt e = "2025-02-01"%string.
Proof.
  apply addToRecentSearches_repeat.
  - apply Nat.leb_le; reflexivity.
  - exists (sample_recent "search-1" "sunset"). split; [right; left; reflexivity | reflexivity].
Defined.

Lemma addToRecentSearches_new_witness :
  getRecentSearches (addToRecentSearches (fun q => q) "search-3" "2025-02-01" "beach" 4%Z
                       (RBrowser two_recent)) =
  {| rs_id := "search-3"; rs_query := "beach"; rs_searchedAt := "2025-02-01";
     rs_resultCount := 4%Z |} :: firstn (MAX_RECENT_SEARCHES - 1) (read_slot two_recent).
Proof.
  apply addToRecentSearches_new.
  intros e [<- | [<- | []]]; reflexivity.
Defined.

End RecentWitnesses.

Section PreferencesFacts.
Import Preferences.

Lemma spread_as_partial (base p : UserPreferences) : spread base (as_partial p) = p.
Proof. destruct p; reflexivity. Qed.

(** Saving a partial update and reading back gives the previous
    preferences with the keys of the update overridden; resetting gives
    the defaults whatever was stored. *)
Theorem savePreferences_getPreferences (p : PartialPreferences) (env : PrefEnv) :
  getPreferences (savePreferences p env) =
    match env with PServer => DEFAULT_PREFERENCES | PBrowser _ => spread (getPreferences env) p end /\
  getPreferences (resetPreferences env) = DEFAULT_PREFERENCES.
Proof.
  destruct env as [| slot]; [split; reflexivity |].
  split; [apply spread_as_partial | apply spread_as_partial].
Qed.

(** The settings modal saves the whole preferences object it shows; reading
    the preferences back gives exactly that object. *)
Theorem settings_save_getPreferences (p : UserPreferences) (slot : PrefSlot) :
  getPreferences (savePreferences (as_partial p) (PBrowser slot)) = p.
Proof.
  unfold savePreferences, getPreferences at 1. rewrite !spread_as_partial. reflexivity.
Qed.

End PreferencesFacts.

Section SavedSearchFacts.
Import ClientStorage SavedSearches.
Variable stringify : option SavedFilters -> string.

(** Saving the same search twice stores it once: the second call returns
    the search of the first and writes nothing. *)
Theorem saveSearch_idempotent (id1 id2 now1 now2 : string) (search : SearchInput) (env : Env) :
  let (s1, env1) := saveSearch stringify id1 now1 search env in
  saveSearch stringify id2 now2 search env1 = (s1, env1).
Proof.
  destruct env as [| st]; [reflexivity |].
  unfold saveSearch at 1.
  destruct (find _ (read_slot (saved_searches_slot st))) as [ex |] eqn:Hf.
  - unfold saveSearch. rewrite Hf. reflexivity.
  - unfold saveSearch, write_searches. cbn [saved_searches_slot read_slot].
    change MAX_SAVED_SEARCHES with (S 19). rewrite firstn_cons.
    cbn [find complete ss_query ss_filters]. rewrite !String.eqb_refl. reflexivity.
Qed.

(** In a browser, the search [saveSearch] returns is stored and has the
    query and filters asked for. *)
Theorem saveSearch_stored (newId now : string) (search : SearchInput) (st : Storage) :
  let (s, env') := saveSearch stringify newId now search (Browser st) in
  In s (getSavedSearches env') /\ ss_query s = in_query search /\
  stringify (ss_filters s) = stringify (in_filters search).
Proof.
  unfold saveSearch.
  destruct (find _ (read_slot (saved_searches_slot st))) as [ex |] eqn:Hf.
  - apply find_some in Hf. destruct Hf as [Hin Hm].
    apply andb_true_iff in Hm. destruct Hm as [H1 H2].
    apply String.eqb_eq in H1, H2. auto.
  - unfold write_searches. cbn [getSavedSearches saved_searches_slot read_slot].
    change MAX_SAVED_SEARCHES with (S 19). rewrite firstn_cons.
    split; [left; reflexivity | split; reflexivity].
Qed.

(** [deleteSavedSearch id] leaves the saved searches without that id and
    does not touch the favorites. *)
Theorem deleteSavedSearch_spec (id : string) (env : Env) :
  (forall s, In s (getSavedSearches (deleteSavedSearch id env)) <->
             In s (getSavedSearches env) /\ ss_id s <> id) /\
  getFavorites (deleteSavedSearch id env) = getFavorites env.
Proof.
  destruct env as [| st]; [simpl; split; [tauto | reflexivity] |].
  unfold deleteSavedSearch, write_searches. cbn [getSavedSearches getFavorites saved_searches_slot favorites_slot read_slot].
  split; [| reflexivity].
  intros s. rewrite filter_In, Bool.negb_true_iff, String.eqb_neq. reflexivity.
Qed.

Lemma bump_use_none (id now : string) (l : list SavedSearch) :
  (forall s, In s l -> ss_id s <> id) -> bump_use id now l = None.
Proof.
  induction l as [| s l IH]; simpl; intros H; [reflexivity |].
  destruct (String.eqb (ss_id s) id) eqn:E.
  - apply String.eqb_eq in E. exfalso; apply (H s); auto.
  - rewrite IH; auto.
Qed.

Lemma bump_use_split (id now : string) (pre post : list SavedSearch) (s : SavedSearch) :
  (forall x, In x pre -> ss_id x <> id) -> ss_id s = id ->
  bump_use id now (pre ++ s :: post) = Some (pre ++ mark_used now s :: post).
Proof.
  intros Hpre Hs. induction pre as [| x pre IH]; simpl.
  - destruct (String.eqb (ss_id s) id) eqn:E; [reflexivity |].
    rewrite Hs, String.eqb_refl in E; discriminate.
  - destruct (String.eqb (ss_id x) id) eqn:E.
    + apply String.eqb_eq in E. exfalso; apply (Hpre x); [left; reflexivity | exact E].
    + rewrite IH; [reflexivity | intros y Hy; apply Hpre; right; exact Hy].
Qed.

(** [incrementSearchUseCount]: the first search with the id gets one more
    use and the timestamp, nothing else moves; without such a search
    nothing is written (a missing entry stays missing). *)
Theorem incrementSearchUseCount_spec (id now : string) (st : Storage) :
  ((forall s, In s (read_slot (saved_searches_slot st)) -> ss_id s <> id) ->
     incrementSearchUseCount id now (Browser st) = Browser st) /\
  (forall pre s post, read_slot (saved_searches_slot st) = pre ++ s :: post ->
     (forall x, In x pre -> ss_id x <> id) -> ss_id s = id ->
     getSavedSearches (incrementSearchUseCount id now (Browser st)) =
       pre ++ mark_used now s :: post).
Proof.
  split.
  - intros H. unfold incrementSearchUseCount. rewrite bump_use_none by exact H. reflexivity.
  - intros pre s post Hl Hpre Hs. unfold incrementSearchUseCount.
    rewrite Hl, (bump_use_split id now pre post s Hpre Hs). reflexivity.
Qed.

Lemma find_shortcut_assign (id : string) (key : Z) (l : list SavedSearch) :
  (forall s, In s l -> has_shortcut key s = false) ->
  find (has_shortcut key) (assign_to_first id key l) =
  option_map (fun s => with_shortcut s (Some key)) (find (fun s => String.eqb (ss_id s) id) l).
Proof.
  induction l as [| s l IH]; simpl; intros H; [reflexivity |].
  destruct (String.eqb (ss_id s) id) eqn:E; simpl.
  - unfold has_shortcut; simpl. rewrite Z.eqb_refl. reflexivity.
  - rewrite (H s (or_introl eq_refl)). apply IH; auto.
Qed.

(** After [assignShortcutKey searchId key], looking the key up finds the
    search with that id; when no search has the id, the key is taken from
    every search and the lookup finds nothing. *)
Theorem getSearchByShortcut_after_assign (searchId : string) (key : Z) (st : Storage) :
  getSearchByShortcut key (assignShortcutKey searchId key (Browser st)) =
  option_map (fun s => with_shortcut s (Some key))
             (find (fun s => String.eqb (ss_id s) searchId) (read_slot (saved_searches_slot st))).
Proof.
  unfold getSearchByShortcut, assignShortcutKey. cbn [getSavedSearches saved_searches_slot read_slot].
  rewrite find_shortcut_assign.
  - set (l := read_slot (saved_searches_slot st)). clearbody l.
    induction l as [| s l IH]; simpl; [reflexivity |].
    assert (Hid : ss_id (if has_shortcut key s then with_shortcut s None else s) = ss_id s)
      by (destruct (has_shortcut key s); reflexivity).
    rewrite Hid. destruct (String.eqb (ss_id s) searchId); [| exact IH].
    simpl. destruct (has_shortcut key s); reflexivity.
  - intros s Hs. apply in_map_iff in Hs. destruct Hs as (s0 & <- & _).
    apply clear_shortcut_cleared.
Qed.

End SavedSearchFacts.


Section ResultsViewFacts.
Import ResultsView.

(** A higher score never gets a lower relevance level. *)
Theorem getRelevanceInfo_monotone (s1 s2 : R) :
  s1 <= s2 -> (relevance_rank (getRelevanceInfo s1) <= relevance_rank (getRelevanceInfo s2))%nat.
Proof.
  intros H. unfold getRelevanceInfo, Rleb.
  repeat destruct (Rle_dec _ s1); repeat destruct (Rle_dec _ s2); simpl; lia || lra.
Qed.

Lemma getRelevanceInfo_monotone_witness :
  1 / 4 <= 1 / 3 /\
  (relevance_rank (getRelevanceInfo (1 / 4)) <= relevance_rank (getRelevanceInfo (1 / 3)))%nat.
Proof. split; [lra | apply getRelevanceInfo_monotone; lra]. Defined.

Open Scope Z_scope.

Lemma carousel_next_iter (n i : Z) (k : nat) :
  0 < n -> 0 <= i < n ->
  Nat.iter k (carousel_next n) i = (i + Z.of_nat k) mod n.
Proof.
  intros Hn Hi. induction k as [| k IH].
  - simpl. rewrite Z.add_0_r, Z.mod_small; lia.
  - change (Nat.iter (S k) (carousel_next n) i) with (carousel_next n (Nat.iter k (carousel_next n) i)).
    rewrite IH. unfold carousel_next.
    replace (i + Z.of_nat (S k)) with ((i + Z.of_nat k) + 1) by lia.
    replace ((i + Z.of_nat k + 1) mod n) with (((i + Z.of_nat k) mod n + 1) mod n)
      by (rewrite Z.add_mod_idemp_l; lia).
    set (j := (i + Z.of_nat k) mod n).
    assert (Hj : 0 <= j < n) by (apply Z.mod_pos_bound; lia).
    destruct (Z.eqb_spec j (n - 1)) as [E | E].
    + rewrite E. replace (n - 1 + 1) with n by lia. rewrite Z.mod_same; lia.
    + rewrite Z.mod_small; lia.
Qed.

(** [CarouselView]: for [n] results and an index in range, both buttons
    keep the index in range and undo each other, and [k] presses of Next
    advance it by [k] modulo [n] (so [n] presses come back). An index past
    the end (a list that shrank under a mounted carousel) is never brought
    back into range by Next. *)
Theorem carousel_navigation (n i : Z) :
  0 < n ->
  (0 <= i < n ->
     0 <= carousel_next n i < n /\ 0 <= carousel_prev n i < n /\
     carousel_prev n (carousel_next n i) = i /\ carousel_next n (carousel_prev n i) = i /\
     (forall k : nat, Nat.iter k (carousel_next n) i = (i + Z.of_nat k) mod n)) /\
  (n <= i -> forall k : nat, n <= Nat.iter k (carousel_next n) i).
Proof.
  intros Hn. split.
  - intros Hi. unfold carousel_next, carousel_prev.
    split; [destruct (Z.eqb_spec i (n - 1)); lia |].
    split; [destruct (Z.eqb_spec i 0); lia |].
    split; [destruct (Z.eqb_spec i (n - 1)) as [E | E];
            [rewrite Z.eqb_refl; lia | destruct (Z.eqb_spec (i + 1) 0); lia] |].
    split; [destruct (Z.eqb_spec i 0) as [E | E];
            [rewrite Z.eqb_refl; lia | destruct (Z.eqb_spec (i - 1) (n - 1)); lia] |].
    intros k. apply carousel_next_iter; assumption.
  - intros Hi k. induction k as [| k IH]; [simpl; lia |].
    change (Nat.iter (S k) (carousel_next n) i) with (carousel_next n (Nat.iter k (carousel_next n) i)).
    set (j := Nat.iter k (carousel_next n) i) in *.
    unfold carousel_next. destruct (Z.eqb_spec j (n - 1)); lia.
Qed.

Lemma carousel_navigation_witness :
  0 < 3 /\
  ((0 <= 2 < 3 ->
     0 <= carousel_next 3 2 < 3 /\ 0 <= carousel_prev 3 2 < 3 /\
     carousel_prev 3 (carousel_next 3 2) = 2 /\ carousel_next 3 (carousel_prev 3 2) = 2 /\
     (forall k : nat, Nat.iter k (carousel_next 3) 2 = (2 + Z.of_nat k) mod 3)) /\
  (3 <= 2 -> forall k : nat, 3 <= Nat.iter k (carousel_next 3) 2)).
Proof. split; [lia | apply carousel_navigation; lia]. Defined.

Close Scope Z_scope.

Lemma zoom_levels_step (b : bool) (z : R) :
  In z [1; 3 / 2; 2; 5 / 2; 3] ->
  In (match b with true => zoomIn z | false => zoomOut z end) [1; 3 / 2; 2; 5 / 2; 3].
Proof.
  unfold zoomIn, zoomOut, Rmin, Rmax.
  intros Hz; simpl in Hz.
  destruct b; decompose [or False] Hz; subst z;
    repeat destruct (Rle_dec _ _); simpl;
    first [ left; lra | right; left; lra | right; right; left; lra
          | right; right; right; left; lra | right; right; right; right; left; lra
          | exfalso; lra ].
Qed.

(** [ImageLightbox]: from the initial zoom of 1, any sequence of clicks on
    the zoom buttons leaves the zoom at one of 1, 1.5, 2, 2.5 and 3. *)
Theorem zoom_after_levels (clicks : list bool) :
  In (zoom_after clicks 1) [1; 3 / 2; 2; 5 / 2; 3].
Proof.
  assert (H : forall z, In z [1; 3 / 2; 2; 5 / 2; 3] -> In (zoom_after clicks z) [1; 3 / 2; 2; 5 / 2; 3]).
  { induction clicks as [| c cs IH]; intros z Hz; [exact Hz |].
    destruct c; simpl; apply IH; apply (zoom_levels_step true) || apply (zoom_levels_step false); exact Hz. }
  apply H. left; reflexivity.
Qed.

End ResultsViewFacts.

Section ApiFacts.
Import ApiClient.
Variable numberToString : R -> string.

Lemma append_number_in (name k v : string) (x : option R) :
  In (k, v) (append_number numberToString name x) <->
  k = name /\ exists m, x = Some m /\ m <> 0 /\ v = numberToString m.
Proof.
  unfold append_number, Reqb. destruct x as [m |]; simpl.
  - destruct (Req_EM_T m 0) as [E | E]; simpl.
    + split; [intros [] | intros (_ & m' & Hm & Hne & _)]. injection Hm as <-. contradiction.
    + split.
      * intros [H | []]. injection H as <- <-. split; [reflexivity |]. exists m; auto.
      * intros (-> & m' & Hm & _ & ->). injection Hm as <-. left; reflexivity.
  - split; [intros [] | intros (_ & m' & Hm & _)]. discriminate.
Qed.

Lemma append_query_in (k v : string) (q : option string) :
  In (k, v) (append_query q) <-> k = "query"%string /\ q = Some v /\ v <> EmptyString.
Proof.
  unfold append_query. destruct q as [s |]; simpl.
  - destruct (String.eqb_spec s EmptyString) as [E | E]; simpl.
    + split; [intros [] | intros (_ & Hs & Hne)]. injection Hs as <-. contradiction.
    + split.
      * intros [H | []]. injection H as <- <-. auto.
      * intros (-> & Hs & _). injection Hs as <-. left; reflexivity.
  - split; [intros [] | intros (_ & Hs & _)]. discriminate.
Qed.

(** [uploadImageSearch] sends a [min_score] (a [top_k], a [query]) exactly
    when the option is set to a non-zero number (a non-empty string):
    [min_score: 0] is dropped and the server default applies. *)
Theorem upload_params_truthy (options : UploadOptions) :
  (forall v, In ("min_score"%string, v) (upload_params numberToString options) <->
     exists m, opt_min_score options = Some m /\ m <> 0 /\ v = numberToString m) /\
  (forall v, In ("top_k"%string, v) (upload_params numberToString options) <->
     exists k, opt_top_k options = Some k /\ k <> 0 /\ v = numberToString k) /\
  (forall v, In ("query"%string, v) (upload_params numberToString options) <->
     opt_query options = Some v /\ v <> EmptyString).
Proof.
  unfold upload_params.
  split; [| split]; intros v; rewrite !in_app_iff, append_query_in, !append_number_in.
  - split; [intros [(H & _) | [(H & _) | (_ & H)]]; [discriminate | discriminate | exact H] |].
    intros H; right; right; auto.
  - split; [intros [(H & _) | [(_ & H) | (H & _)]]; [discriminate | exact H | discriminate] |].
    intros H; right; left; auto.
  - split; [intros [(_ & H) | [(H & _) | (H & _)]]; [exact H | discriminate | discriminate] |].
    intros H; left; auto.
Qed.
End ApiFacts.
